(** * The invoice reminder edge function (invoice-reminder.ts)

    A shallow embedding of the scheduled batch job that mails payment
    reminders for open invoices, and the properties of its selection
    policy, reminder cap, failure handling and run result.

    The handler talks to three outside parties: the data store (tables
    [invoices] and [profiles]), the mail provider (one HTTP POST per
    reminder) and the console.  The [invoices] table is part of the modelled
    state, because the handler writes it; what the other requests answer is
    given by an environment of oracles.  Every request the handler issues is
    appended to a trace. *)

From Stdlib Require Import ZArith List String Ascii Bool Lia.
Import ListNotations.

Local Open Scope string_scope.
Local Open Scope Z_scope.

(** ** JavaScript values *)

(** A thrown value; the handler only ever reads its [message]. *)
Record JSError := Err { message : string }.

(** Truthiness of a nullable string: [null] and the empty string are falsy. *)
Definition truthy_string (v : option string) : bool :=
  match v with
  | Some s => negb (s =? EmptyString)%string
  | None => false
  end.

(** Truthiness of a nullable integer: [null] and [0] are falsy. *)
Definition truthy_number (v : option Z) : bool :=
  match v with
  | Some n => negb (n =? 0)
  | None => false
  end.

(** [v || ''] *)
Definition or_empty (v : option string) : string :=
  if truthy_string v then match v with Some s => s | None => EmptyString end else EmptyString.

(** [v || 0] *)
Definition or_zero (v : option Z) : Z :=
  if truthy_number v then match v with Some n => n | None => 0 end else 0.

(** A nullable string inside a template literal. *)
Definition template_string (v : option string) : string :=
  match v with
  | Some s => s
  | None => "null"
  end.

(** The [Date] built-in, as far as the handler uses it.  A date is its time
    value in milliseconds since the epoch, [None] standing for the [NaN] of
    an invalid date.  How a string is read is left to the implementation,
    except that the empty string is no date. *)
Class DateAPI := {
  Date_parse : string -> option Z;
  Date_toISOString : Z -> string;
  Date_parse_empty : Date_parse EmptyString = None
}.

(** [new Date(v)] for a nullable string; [new Date(null)] is the epoch. *)
Definition new_Date {D : DateAPI} (v : option string) : option Z :=
  match v with
  | Some s => Date_parse s
  | None => Some 0
  end.

(** [amount.toFixed(2)].  Amounts are money with two decimals; the model
    holds them as a whole number of cents, which [toFixed(2)] prints
    exactly. *)
Fixpoint digits (fuel : nat) (n : Z) (acc : string) : string :=
  match fuel with
  | O => acc
  | S fuel' =>
      let acc' := String (ascii_of_N (Z.to_N (48 + n mod 10))) acc in
      if n / 10 =? 0 then acc' else digits fuel' (n / 10) acc'
  end.

Definition decimal (n : Z) : string :=
  digits (S (Z.to_nat (Z.log2 (Z.abs n)))) (Z.abs n) EmptyString.

Definition toFixed2 (cents : Z) : string :=
  let a := Z.abs cents in
  (if cents <? 0 then "-" else EmptyString) ++ decimal (a / 100) ++ "."
    ++ decimal (a mod 100 / 10) ++ decimal (a mod 10).

(** ** Data model *)

(** A row of [invoices], with the columns the handler selects. *)
Record Invoice := {
  id : string;
  user_id : string;
  amount : option Z;
  due_date : option string;
  payment_reference : option string;
  reminder_sent_at : option string;
  reminder_count : option Z;
  status : string
}.

(** A row of [profiles], with the columns the handler selects. *)
Record Profile := {
  email : option string;
  first_name : option string;
  last_name : option string
}.

(** What the data store client resolves to: [{ data, error }]. *)
Record PostgrestResponse (A : Type) := {
  data : option A;
  error : option JSError
}.
Arguments data {A} _.
Arguments error {A} _.

(** The JSON body posted to the mail provider. *)
Record Mail := {
  from : string;
  to : option string;
  subject : string;
  html : string
}.

(** How a [fetch] promise ends: fulfilled with a response ([res.ok],
    [res.text()]), rejected, or never settled.  The call is made without an
    abort signal, so nothing on the caller's side ends a pending request. *)
Inductive FetchOutcome :=
| Fulfilled (ok : bool) (text : string)
| Rejected (e : JSError)
| NeverSettles.

(** Response bodies: a text, or the [JSON.stringify] of a flat object. *)
Inductive JValue :=
| JBool (b : bool)
| JNumber (n : Z)
| JString (s : string).

Inductive Body :=
| BodyText (s : string)
| BodyJSON (fields : list (string * JValue)).

Record Request := { method : string }.

Record Response := {
  resp_body : Body;
  resp_headers : list (string * string);
  resp_status : Z
}.

(** ** Requests, environment and state *)

(** The requests the handler issues.  A request made from inside the loop is
    tagged with the invoice the loop is at. *)
Inductive Event :=
| SelectInvoices
| SelectProfile (inv : Invoice)
| FetchResend (inv : Invoice) (m : Mail)
| UpdateInvoices (inv : Invoice) (sent_at : string) (count : Z)
| ConsoleError (label : string) (err : JSError).

(** What the outside answers during one run.  The answers to the requests
    made from inside the loop are given per invoice the loop is at; the data
    store client resolves with [{ data, error }] and does not throw. *)
Record Env := {
  invoices_select_error : option JSError;
  profiles_single : Invoice -> PostgrestResponse Profile;
  resend_fetch : Invoice -> Mail -> FetchOutcome;
  invoices_update_error : Invoice -> option JSError
}.

Record World := {
  invoices : list Invoice;
  trace : list Event
}.

(** ** Control flow: completions *)

Inductive Completion (A : Type) :=
| Normal (a : A)
| Throw (e : JSError)
| Pending.
Arguments Normal {A} _.
Arguments Throw {A} _.
Arguments Pending {A}.

Definition M (A : Type) : Type := World -> Completion A * World.

Definition ret {A} (a : A) : M A := fun w => (Normal a, w).

Definition bind {A B} (c : M A) (k : A -> M B) : M B :=
  fun w =>
    match c w with
    | (Normal a, w') => k a w'
    | (Throw e, w') => (Throw e, w')
    | (Pending, w') => (Pending, w')
    end.

Definition throw {A} (e : JSError) : M A := fun w => (Throw e, w).

Definition never {A} : M A := fun w => (Pending, w).

Definition try_catch {A} (c : M A) (h : JSError -> M A) : M A :=
  fun w =>
    match c w with
    | (Throw e, w') => h e w'
    | r => r
    end.

(** The state after some more requests were issued. *)
Definition log (evs : list Event) (w : World) : World :=
  {| invoices := invoices w; trace := (trace w ++ evs)%list |}.

Definition emit (e : Event) : M unit := fun w => (Normal tt, log [e] w).

Declare Scope js_scope.
Delimit Scope js_scope with js.
Notation "x <- c ;; k" := (bind c (fun x => k))
  (at level 61, c at next level, right associativity) : js_scope.
Notation "c ;;; k" := (bind c (fun _ => k))
  (at level 61, right associativity) : js_scope.
Local Open Scope js_scope.

(** [for (const x of xs) { acc = body(x, acc) }] *)
Fixpoint for_of {X A} (body : X -> A -> M A) (xs : list X) (acc : A) : M A :=
  match xs with
  | [] => ret acc
  | x :: xs' => acc' <- body x acc ;; for_of body xs' acc'
  end.

(** ** The program *)

Definition corsHeaders : list (string * string) :=
  [ ("Access-Control-Allow-Origin", "*");
    ("Access-Control-Allow-Headers",
     "authorization, x-client-info, apikey, content-type, x-application-name") ].

Definition FROM_EMAIL := "noreply@stockflow.app".
Definition FROM_NAME := "stockflow".

Definition WEEK : Z := 7 * 24 * 60 * 60 * 1000.

Definition nl : string := String (ascii_of_nat 10) EmptyString.

Section Handler.

Context {D : DateAPI}.
Variable env : Env.

(** The body of the POST: [{ from, to, subject, html }]. *)
Definition reminder_mail (to_ : option string) (subject_ html_ : string)
  : Mail :=
  {| from := FROM_NAME ++ " <" ++ FROM_EMAIL ++ ">";
     to := to_; subject := subject_; html := html_ |}.

(** [sendReminderEmail(to, subject, html)]: posts the mail and throws when
    the provider answers with a status outside 2xx.  [inv] is the tag of
    the request, the invoice the loop is at. *)
Definition sendReminderEmail (inv : Invoice) (to_ : option string)
  (subject_ html_ : string) : M unit :=
  let m := reminder_mail to_ subject_ html_ in
  emit (FetchResend inv m) ;;;
  match resend_fetch env inv m with
  | Fulfilled ok text =>
      if negb ok then throw (Err ("Resend error: " ++ text)) else ret tt
  | Rejected e => throw e
  | NeverSettles => never
  end.

(** [from('invoices').select(...).eq('status', 'open')] *)
Definition select_open_invoices : M (PostgrestResponse (list Invoice)) :=
  emit SelectInvoices ;;;
  fun w =>
    match invoices_select_error env with
    | Some e => (Normal {| data := None; error := Some e |}, w)
    | None =>
        (Normal {| data := Some (filter (fun r => (status r =? "open")%string)
                                        (invoices w));
                   error := None |}, w)
    end.

(** [from('profiles').select(...).eq('id', inv.user_id).single()] *)
Definition select_profile (inv : Invoice) : M (PostgrestResponse Profile) :=
  emit (SelectProfile inv) ;;; ret (profiles_single env inv).

(** The row written by [update({ reminder_sent_at, reminder_count })]. *)
Definition with_reminder (sent_at : string) (count : Z) (r : Invoice)
  : Invoice :=
  {| id := id r; user_id := user_id r; amount := amount r;
     due_date := due_date r; payment_reference := payment_reference r;
     reminder_sent_at := Some sent_at; reminder_count := Some count;
     status := status r |}.

(** [from('invoices').update({...}).eq('id', inv.id)]: every row with that
    id is rewritten, unless the store reports an error. *)
Definition update_invoices (inv : Invoice) (sent_at : string) (count : Z)
  : M (PostgrestResponse unit) :=
  emit (UpdateInvoices inv sent_at count) ;;;
  fun w =>
    match invoices_update_error env inv with
    | Some e => (Normal {| data := None; error := Some e |}, w)
    | None =>
        (Normal {| data := None; error := None |},
         {| invoices :=
              map (fun r => if (id r =? id inv)%string
                            then with_reminder sent_at count r else r)
                  (invoices w);
            trace := trace w |})
    end.

(** [due > now && (due.getTime() - now.getTime()) > 7 * 24 * 60 * 60 * 1000];
    a comparison with [NaN] is false. *)
Definition beyond_window (now : Z) (due : option Z) : bool :=
  match due with
  | Some d => (now <? d) && (WEEK <? d - now)
  | None => false
  end.

(** [inv.reminder_count && inv.reminder_count >= 3] *)
Definition cap_reached (inv : Invoice) : bool :=
  truthy_number (reminder_count inv)
  && match reminder_count inv with Some c => 3 <=? c | None => false end.

(** The recipient, unless [userError || !user?.email]. *)
Definition recipient (r : PostgrestResponse Profile) : option Profile :=
  match error r, data r with
  | None, Some user => if truthy_string (email user) then Some user else None
  | _, _ => None
  end.

(** The template literal of the message body, for an amount [a]. *)
Definition html_body (a : Z) (inv : Invoice) (user : Profile) : string :=
  nl    ++ "        <h2>Herinnering: openstaande factuur</h2>" ++ nl
        ++ "        <p>Beste " ++ or_empty (first_name user) ++ " "
        ++ or_empty (last_name user) ++ ",</p>" ++ nl
        ++ "        <p>Uw factuur van €" ++ toFixed2 a
        ++ " met vervaldatum " ++ template_string (due_date inv)
        ++ " is nog niet betaald.</p>" ++ nl
        ++ "        <p>Gelieve te betalen op IBAN <b>BE86731056413050</b> t.n.v. <b>stockflow</b> met mededeling <b>"
        ++ template_string (payment_reference inv) ++ "</b>.</p>" ++ nl
        ++ "        <p>U kunt ook eenvoudig betalen door de QR-code te scannen in uw stockflow portaal.</p>" ++ nl
        ++ "        <p>Al betaald? Dan mag u deze herinnering negeren.</p>" ++ nl
        ++ "        <p>Met vriendelijke groet,<br/>stockflow</p>" ++ nl
        ++ "      ".

Definition subject_line : string :=
  "Herinnering: openstaande factuur stockflow".

(** Evaluating the template; reading [toFixed] off a missing amount
    throws. *)
Definition compose_html (inv : Invoice) (user : Profile) : M string :=
  match amount inv with
  | None => throw (Err "Cannot read properties of null (reading 'toFixed')")
  | Some a => ret (html_body a inv user)
  end.

(** The body of the [for] loop; its result is the new [remindersSent].
    [continue] is [ret remindersSent]. *)
Definition process_invoice (now : Z) (inv : Invoice) (remindersSent : Z)
  : M Z :=
  if negb (truthy_string (due_date inv)) then ret remindersSent else
  let due := new_Date (due_date inv) in
  if beyond_window now due then ret remindersSent else
  if cap_reached inv then ret remindersSent else
  r <- select_profile inv ;;
  match recipient r with
  | None => ret remindersSent
  | Some user =>
      let subject_ := subject_line in
      html_ <- compose_html inv user ;;
      try_catch
        (sendReminderEmail inv (email user) subject_ html_ ;;;
         update_invoices inv (Date_toISOString now)
                         (or_zero (reminder_count inv) + 1) ;;;
         ret (remindersSent + 1))
        (fun err =>
           emit (ConsoleError "Reminder e-mail error:" err) ;;;
           ret remindersSent)
  end.

Definition json_headers : list (string * string) :=
  (corsHeaders ++ [("Content-Type", "application/json")])%list.

(** The function passed to [serve]. *)
Definition handler (now : Z) (req : Request) : M Response :=
  if (method req =? "OPTIONS")%string then
    ret {| resp_body := BodyText "ok"; resp_headers := corsHeaders;
           resp_status := 200 |}
  else
    try_catch
      (r <- select_open_invoices ;;
       match error r with
       | Some e => throw e
       | None =>
           remindersSent <-
             for_of (process_invoice now)
                    match data r with Some l => l | None => [] end 0 ;;
           ret {| resp_body :=
                    BodyJSON [("success", JBool true);
                              ("remindersSent", JNumber remindersSent)];
                  resp_headers := json_headers;
                  resp_status := 200 |}
       end)
      (fun err =>
         ret {| resp_body := BodyJSON [("error", JString (message err))];
                resp_headers := json_headers;
                resp_status := 500 |}).

End Handler.

(** ** A calendar instance of [Date]

    Reads the date-only form [YYYY-MM-DD] as midnight UTC of that day and
    prints the full ISO form; every other string is an invalid date. *)
Module IsoDate.

Definition digit (c : ascii) : option Z :=
  let n := Z.of_N (N_of_ascii c) in
  if (48 <=? n) && (n <=? 57) then Some (n - 48) else None.

Fixpoint number (cs : list ascii) (acc : Z) : option Z :=
  match cs with
  | [] => Some acc
  | c :: cs' =>
      match digit c with
      | Some d => number cs' (10 * acc + d)
      | None => None
      end
  end.

Definition leap (y : Z) : bool :=
  (y mod 4 =? 0) && (negb (y mod 100 =? 0) || (y mod 400 =? 0)).

Definition days_in_month (y m : Z) : Z :=
  if m =? 2 then (if leap y then 29 else 28)
  else if (m =? 4) || (m =? 6) || (m =? 9) || (m =? 11) then 30 else 31.

(** Days from 1970-01-01 to the given civil date. *)
Definition days_from_civil (y m d : Z) : Z :=
  let y' := if m <=? 2 then y - 1 else y in
  let era := y' / 400 in
  let yoe := y' - era * 400 in
  let mp := (m + 9) mod 12 in
  let doy := (153 * mp + 2) / 5 + d - 1 in
  let doe := yoe * 365 + yoe / 4 - yoe / 100 + doy in
  era * 146097 + doe - 719468.

Definition civil_from_days (days : Z) : Z * Z * Z :=
  let z := days + 719468 in
  let era := z / 146097 in
  let doe := z - era * 146097 in
  let yoe := (doe - doe / 1460 + doe / 36524 - doe / 146096) / 365 in
  let doy := doe - (365 * yoe + yoe / 4 - yoe / 100) in
  let mp := (5 * doy + 2) / 153 in
  let d := doy - (153 * mp + 2) / 5 + 1 in
  let m := if mp <? 10 then mp + 3 else mp - 9 in
  (yoe + era * 400 + (if m <=? 2 then 1 else 0), m, d).

Definition DAY : Z := 24 * 60 * 60 * 1000.

Definition parse (s : string) : option Z :=
  match list_ascii_of_string s with
  | [y1; y2; y3; y4; "-"%char; m1; m2; "-"%char; d1; d2] =>
      match number [y1; y2; y3; y4] 0, number [m1; m2] 0, number [d1; d2] 0 with
      | Some y, Some m, Some d =>
          if (1 <=? m) && (m <=? 12) && (1 <=? d) && (d <=? days_in_month y m)
          then Some (days_from_civil y m d * DAY)
          else None
      | _, _, _ => None
      end
  | _ => None
  end.

Definition pad (width : nat) (n : Z) : string :=
  let s := decimal n in
  string_of_list_ascii (repeat "0"%char (width - String.length s)) ++ s.

Definition toISOString (t : Z) : string :=
  let '(y, m, d) := civil_from_days (t / DAY) in
  let r := t mod DAY in
  pad 4 y ++ "-" ++ pad 2 m ++ "-" ++ pad 2 d ++ "T"
    ++ pad 2 (r / 3600000) ++ ":" ++ pad 2 (r / 60000 mod 60) ++ ":"
    ++ pad 2 (r / 1000 mod 60) ++ "." ++ pad 3 (r mod 1000) ++ "Z".

#[export] Instance date : DateAPI := {|
  Date_parse := parse;
  Date_toISOString := toISOString;
  Date_parse_empty := eq_refl
|}.

End IsoDate.


(** ** Vocabulary of the properties *)

(** The count the handler works with: [inv.reminder_count || 0]. *)
Definition count_of (inv : Invoice) : Z := or_zero (reminder_count inv).

(** The reminder cap. *)
Definition capped (inv : Invoice) : Prop := count_of inv <= 3.

(** The conjunction of the loop's three guards: the invoice is not passed
    over before the recipient lookup. *)
Definition eligible {D : DateAPI} (now : Z) (inv : Invoice) : bool :=
  truthy_string (due_date inv)
  && negb (beyond_window now (new_Date (due_date inv)))
  && negb (cap_reached inv).

(** The error a settled provider call makes [sendReminderEmail] throw. *)
Definition dispatch_error (o : FetchOutcome) : option JSError :=
  match o with
  | Fulfilled false text => Some (Err ("Resend error: " ++ text))
  | Rejected e => Some e
  | _ => None
  end.

(** The mail of an invoice with amount [a] to the profile [user]. *)
Definition mail_for (a : Z) (inv : Invoice) (user : Profile) : Mail :=
  reminder_mail (email user) subject_line (html_body a inv user).

(** The table after the update of [inv] went through. *)
Definition reminded {D : DateAPI} (now : Z) (inv : Invoice)
  (rows : list Invoice) : list Invoice :=
  map (fun r => if (id r =? id inv)%string
                then with_reminder (Date_toISOString now) (count_of inv + 1) r
                else r) rows.

(** The paths through the loop body, one constructor each. *)
Inductive Processed {D : DateAPI} (env : Env) (now : Z) (inv : Invoice)
  (n : Z) (w : World) : Completion Z -> World -> Prop :=
| Passed_over :
    eligible now inv = false ->
    Processed env now inv n w (Normal n) w
| No_recipient :
    eligible now inv = true ->
    recipient (profiles_single env inv) = None ->
    Processed env now inv n w (Normal n) (log [SelectProfile inv] w)
| Composition_fault user :
    eligible now inv = true ->
    recipient (profiles_single env inv) = Some user ->
    amount inv = None ->
    Processed env now inv n w
      (Throw (Err "Cannot read properties of null (reading 'toFixed')"))
      (log [SelectProfile inv] w)
| Dispatch_failed user a err :
    eligible now inv = true ->
    recipient (profiles_single env inv) = Some user ->
    amount inv = Some a ->
    dispatch_error (resend_fetch env inv (mail_for a inv user)) = Some err ->
    Processed env now inv n w (Normal n)
      (log [SelectProfile inv; FetchResend inv (mail_for a inv user);
            ConsoleError "Reminder e-mail error:" err] w)
| Dispatch_pending user a :
    eligible now inv = true ->
    recipient (profiles_single env inv) = Some user ->
    amount inv = Some a ->
    resend_fetch env inv (mail_for a inv user) = NeverSettles ->
    Processed env now inv n w Pending
      (log [SelectProfile inv; FetchResend inv (mail_for a inv user)] w)
| Sent_unrecorded user a text e :
    eligible now inv = true ->
    recipient (profiles_single env inv) = Some user ->
    amount inv = Some a ->
    resend_fetch env inv (mail_for a inv user) = Fulfilled true text ->
    invoices_update_error env inv = Some e ->
    Processed env now inv n w (Normal (n + 1))
      (log [SelectProfile inv; FetchResend inv (mail_for a inv user);
            UpdateInvoices inv (Date_toISOString now) (count_of inv + 1)] w)
| Sent user a text :
    eligible now inv = true ->
    recipient (profiles_single env inv) = Some user ->
    amount inv = Some a ->
    resend_fetch env inv (mail_for a inv user) = Fulfilled true text ->
    invoices_update_error env inv = None ->
    Processed env now inv n w (Normal (n + 1))
      {| invoices := reminded now inv (invoices w);
         trace := (trace w ++
           [SelectProfile inv; FetchResend inv (mail_for a inv user);
            UpdateInvoices inv (Date_toISOString now) (count_of inv + 1)])%list |}.

(** A row's count was raised by a run: it stood below 3, the run had the
    row's mail accepted by the provider, and the row now carries the time of
    the run and a count one higher. *)
Definition raised {D : DateAPI} (env : Env) (now : Z) (evs : list Event)
  (old new : Invoice) : Prop :=
  count_of old < 3
  /\ new = with_reminder (Date_toISOString now) (count_of old + 1) old
  /\ count_of new = count_of old + 1
  /\ exists m text,
       In (FetchResend old m) evs
       /\ resend_fetch env old m = Fulfilled true text.

(** What a run may do to a row: nothing, or raise its count. *)
Definition count_step {D : DateAPI} (env : Env) (now : Z)
  (evs : list Event) (old new : Invoice) : Prop :=
  new = old \/ raised env now evs old new.

(** One run: the state the handler leaves behind. *)
Record Run := {
  run_env : Env;
  run_now : Z;
  run_req : Request
}.

Definition run_once {D : DateAPI} (r : Run) (w : World) : World :=
  snd (handler (run_env r) (run_now r) (run_req r) w).

(** Runs one after the other, none overlapping another. *)
Definition runs {D : DateAPI} (rs : list Run) (w : World) : World :=
  fold_left (fun w r => run_once r w) rs w.

(** The requests issued between two states of one run. *)
Definition issued (w w' : World) : list Event :=
  skipn (List.length (trace w)) (trace w').

(** The invoice a request is made for. *)
Definition about (e : Event) : option Invoice :=
  match e with
  | SelectProfile inv => Some inv
  | FetchResend inv _ => Some inv
  | UpdateInvoices inv _ _ => Some inv
  | _ => None
  end.

(** The response of a run that went through the whole batch. *)
Definition success_response (remindersSent : Z) : Response :=
  {| resp_body := BodyJSON [("success", JBool true);
                            ("remindersSent", JNumber remindersSent)];
     resp_headers := json_headers;
     resp_status := 200 |}.

(** The response of a run that was given up. *)
Definition error_response (msg : string) : Response :=
  {| resp_body := BodyJSON [("error", JString msg)];
     resp_headers := json_headers;
     resp_status := 500 |}.

(** The invoice is mailed: it passes the guards, has a recipient and an
    amount, and the provider accepts the mail. *)
Definition dispatch_ok {D : DateAPI} (env : Env) (now : Z) (inv : Invoice)
  : bool :=
  eligible now inv
  && match recipient (profiles_single env inv), amount inv with
     | Some user, Some a =>
         match resend_fetch env inv (mail_for a inv user) with
         | Fulfilled true _ => true
         | _ => false
         end
     | _, _ => false
     end.

(** The loop body comes to an end on the invoice: composition does not
    throw and the provider call settles. *)
Definition completes {D : DateAPI} (env : Env) (now : Z) (inv : Invoice)
  : Prop :=
  forall user,
    eligible now inv = true ->
    recipient (profiles_single env inv) = Some user ->
    exists a, amount inv = Some a
              /\ resend_fetch env inv (mail_for a inv user) <> NeverSettles.

(** The kinds of request, for counting them. *)
Definition is_lookup (e : Event) : bool :=
  match e with SelectProfile _ => true | _ => false end.

Definition is_mail (e : Event) : bool :=
  match e with FetchResend _ _ => true | _ => false end.

Definition is_update (e : Event) : bool :=
  match e with UpdateInvoices _ _ _ => true | _ => false end.

Definition count_events (p : Event -> bool) (evs : list Event) : nat :=
  List.length (filter p evs).

(** Two rows that differ at most in [reminder_sent_at] and
    [reminder_count]. *)
Definition same_but_reminder (old new : Invoice) : Prop :=
  id new = id old /\ user_id new = user_id old /\ amount new = amount old
  /\ due_date new = due_date old
  /\ payment_reference new = payment_reference old
  /\ status new = status old.

(** The lookup gave no one to write to: it failed, found no row, or found
    a row without an address. *)
Definition unreachable (r : PostgrestResponse Profile) : Prop :=
  error r <> None
  \/ data r = None
  \/ exists u, data r = Some u
               /\ (email u = None \/ email u = Some EmptyString).

(** ** Sample data

    Monday 15 January 2024, 08:00 UTC, and a handful of invoices around
    it. *)
Module Scenario.

Import IsoDate.

Definition now : Z := 1705305600000.

Definition POST : Request := {| method := "POST" |}.

Definition invoice (id_ : string) (amount_ : option Z)
  (due_date_ : option string) (count_ : option Z) (status_ : string)
  : Invoice :=
  {| id := id_; user_id := "user-1"; amount := amount_;
     due_date := due_date_; payment_reference := Some "REF-2024-001";
     reminder_sent_at := None; reminder_count := count_;
     status := status_ |}.

(** Due in three days. *)
Definition due_soon := invoice "a" (Some 12500) (Some "2024-01-18") (Some 0) "open".
(** Due in ten days. *)
Definition due_later := invoice "b" (Some 12500) (Some "2024-01-25") (Some 0) "open".
(** Three reminders already sent. *)
Definition at_cap := invoice "c" (Some 12500) (Some "2024-01-10") (Some 3) "open".
(** No amount. *)
Definition no_amount := invoice "d" None (Some "2024-01-10") (Some 1) "open".
(** No due date. *)
Definition no_due_date := invoice "e" (Some 12500) None (Some 0) "open".
(** Overdue, two reminders sent. *)
Definition overdue := invoice "f" (Some 990) (Some "2023-12-01") (Some 2) "open".
(** Settled. *)
Definition paid := invoice "g" (Some 12500) (Some "2024-01-10") (Some 0) "paid".

Definition customer : Profile :=
  {| email := Some "klant@example.com"; first_name := Some "Jan";
     last_name := None |}.

Definition found (inv : Invoice) : PostgrestResponse Profile :=
  {| data := Some customer; error := None |}.

(** Everything works. *)
Definition all_well : Env :=
  {| invoices_select_error := None;
     profiles_single := found;
     resend_fetch := fun _ _ => Fulfilled true "{}";
     invoices_update_error := fun _ => None |}.

(** The provider refuses every mail. *)
Definition provider_refuses : Env :=
  {| invoices_select_error := None;
     profiles_single := found;
     resend_fetch := fun _ _ => Fulfilled false "rate limit exceeded";
     invoices_update_error := fun _ => None |}.

(** The provider never answers. *)
Definition provider_silent : Env :=
  {| invoices_select_error := None;
     profiles_single := found;
     resend_fetch := fun _ _ => NeverSettles;
     invoices_update_error := fun _ => None |}.

(** The bulk read fails. *)
Definition store_down : Env :=
  {| invoices_select_error := Some (Err "connection refused");
     profiles_single := found;
     resend_fetch := fun _ _ => Fulfilled true "{}";
     invoices_update_error := fun _ => None |}.

(** Mails go out, but the store rejects every update. *)
Definition update_rejected : Env :=
  {| invoices_select_error := None;
     profiles_single := found;
     resend_fetch := fun _ _ => Fulfilled true "{}";
     invoices_update_error := fun _ => Some (Err "permission denied") |}.

(** A due date nobody can read. *)
Definition unreadable := invoice "h" (Some 12500) (Some "eind januari") (Some 0) "open".
(** Never reminded: no count yet. *)
Definition fresh := invoice "i" (Some 4500) (Some "2024-01-12") None "open".

(** The profile lookup fails. *)
Definition no_profile : Env :=
  {| invoices_select_error := None;
     profiles_single :=
       fun _ => {| data := None;
                   error := Some (Err "JSON object requested, multiple (or no) rows returned") |};
     resend_fetch := fun _ _ => Fulfilled true "{}";
     invoices_update_error := fun _ => None |}.

Definition table (rows : list Invoice) : World :=
  {| invoices := rows; trace := [] |}.

(** The mail for the invoice that is due in three days. *)
Definition reminder : Mail := mail_for 12500 due_soon customer.

(** A morning run and the run of the day after. *)
Definition monday : Run :=
  {| run_env := all_well; run_now := now; run_req := POST |}.
Definition tuesday : Run :=
  {| run_env := all_well; run_now := now + DAY; run_req := POST |}.

End Scenario.

(** ** The dashboard figures (useDashboardData.tsx)

    The figures [fetchDashboardData] computes from the rows of [products]
    and [stock_transactions] that count and add whole quantities: the
    number of products, the low-stock alerts, today's incoming and
    outgoing quantities, and the activity per day of the chosen range.
    Quantities are whole numbers of units.  The stock value, a sum of
    products with a decimal price, is floating-point arithmetic and is left
    out. *)

(** Local time, as far as the figures use it.  Dates are time values. *)
Class LocalTime := {
  (** [d.setHours(0, 0, 0, 0)] *)
  start_of_day : Z -> Z;
  (** [d.setDate(d.getDate() + 1)] *)
  next_day : Z -> Z;
  (** [d.toLocaleDateString('en-US', { month: 'short', day: 'numeric' })] *)
  short_date : Z -> string;
  next_day_later : forall d, d < next_day d
}.

Record Product := {
  quantity_in_stock : Z;
  minimum_stock_level : Z
}.

Record Transaction := {
  transaction_type : string;
  quantity : Z;
  created_at : string
}.

Record DailyActivityData := {
  date : string;
  incoming : Z;
  outgoing : Z
}.

(** [xs?.length || 0] *)
Definition length_or_zero {A} (xs : option (list A)) : Z :=
  or_zero (option_map (fun l => Z.of_nat (List.length l)) xs).

(** [productsData?.length || 0] *)
Definition totalProducts (productsData : option (list Product)) : Z :=
  length_or_zero productsData.

(** [productsData?.filter(product => product.quantity_in_stock <=
    product.minimum_stock_level).length || 0] *)
Definition lowStockCount (productsData : option (list Product)) : Z :=
  length_or_zero
    (option_map
       (filter (fun product =>
                  quantity_in_stock product <=? minimum_stock_level product))
       productsData).

(** [ts.reduce((sum, t) => sum + t.quantity, 0)] *)
Definition sum_quantity (ts : list Transaction) : Z :=
  fold_left (fun sum t => sum + quantity t) ts 0.

(** [ts.filter(t => t.transaction_type === type)] *)
Definition of_type (type : string) (ts : list Transaction)
  : list Transaction :=
  filter (fun t => (transaction_type t =? type)%string) ts.

(** [new Date(t.created_at) >= today]; false for an invalid date. *)
Definition not_before {D : DateAPI} (today : Z) (t : Transaction) : bool :=
  match Date_parse (created_at t) with
  | Some tDate => today <=? tDate
  | None => false
  end.

(** [transactions?.filter(t => t.transaction_type === type &&
    new Date(t.created_at) >= today).reduce(...) || 0], with [today] the
    start of the day of [now]. *)
Definition quantity_today {D : DateAPI} {L : LocalTime} (type : string)
  (now : Z) (transactions : option (list Transaction)) : Z :=
  let today := start_of_day now in
  or_zero
    (option_map
       (fun ts =>
          sum_quantity
            (filter (fun t => (transaction_type t =? type)%string
                              && not_before today t) ts))
       transactions).

Definition incomingToday {D : DateAPI} {L : LocalTime} :=
  quantity_today "incoming".
Definition outgoingToday {D : DateAPI} {L : LocalTime} :=
  quantity_today "outgoing".

(** [tDate >= d && tDate < nextDay]; false for an invalid date. *)
Definition on_day {D : DateAPI} (d nextDay : Z) (t : Transaction) : bool :=
  match Date_parse (created_at t) with
  | Some tDate => (d <=? tDate) && (tDate <? nextDay)
  | None => false
  end.

(** The body of the loop over the days: the entry pushed for day [d]. *)
Definition day_entry {D : DateAPI} {L : LocalTime} (d : Z)
  (transactions : option (list Transaction)) : DailyActivityData :=
  let nextDay := next_day d in
  let dayTransactions :=
    match transactions with
    | Some ts => filter (on_day d nextDay) ts
    | None => []
    end in
  {| date := short_date d;
     incoming := sum_quantity (of_type "incoming" dayTransactions);
     outgoing := sum_quantity (of_type "outgoing" dayTransactions) |}.

(** [for (let d = new Date(start); d <= end; d.setDate(d.getDate() + 1))],
    with fuel for the number of rounds. *)
Fixpoint days_loop {D : DateAPI} {L : LocalTime} (fuel : nat) (d end_ : Z)
  (transactions : option (list Transaction)) : list DailyActivityData :=
  match fuel with
  | O => []
  | S fuel' =>
      if d <=? end_
      then day_entry d transactions
             :: days_loop fuel' (next_day d) end_ transactions
      else []
  end.

(** The day at which the loop over the days leaves off. *)
Fixpoint days_stop {L : LocalTime} (fuel : nat) (d end_ : Z) : Z :=
  match fuel with
  | O => d
  | S fuel' => if d <=? end_ then days_stop fuel' (next_day d) end_ else d
  end.

(** Rounds that are always enough: a day takes at least a millisecond. *)
Definition days_fuel (start end_ : Z) : nat := Z.to_nat (end_ - start + 1).

(** The daily activity of the range from [dateFrom] to [dateTo], each of
    them today when not given. *)
Definition dailyActivity {D : DateAPI} {L : LocalTime} (now : Z)
  (dateFrom dateTo : option Z) (transactions : option (list Transaction))
  : list DailyActivityData :=
  let start := start_of_day match dateFrom with Some t => t | None => now end in
  let end_ := start_of_day match dateTo with Some t => t | None => now end in
  days_loop (days_fuel start end_) start end_ transactions.

(** The days of a range, one after the other: from [d], each the
    [next_day] of the one before, up to the last that is not after
    [end_]. *)
Inductive range_days {L : LocalTime} (end_ : Z) : Z -> list Z -> Prop :=
| range_over d : end_ < d -> range_days end_ d []
| range_day d ds :
    d <= end_ -> range_days end_ (next_day d) ds ->
    range_days end_ d (d :: ds).

(** The sum of a figure over the entries of an activity. *)
Definition total (f : DailyActivityData -> Z)
  (activity : list DailyActivityData) : Z :=
  fold_right Z.add 0 (map f activity).

(** A clock on UTC: days of 24 hours. *)
Module UtcTime.

Definition month_name (m : Z) : string :=
  nth (Z.to_nat (m - 1))
      ["Jan"; "Feb"; "Mar"; "Apr"; "May"; "Jun";
       "Jul"; "Aug"; "Sep"; "Oct"; "Nov"; "Dec"] "Jan".

Definition short (t : Z) : string :=
  let '(_, m, d) := IsoDate.civil_from_days (t / IsoDate.DAY) in
  month_name m ++ " " ++ decimal d.

#[export] Instance clock : LocalTime := {|
  start_of_day := fun t => t / IsoDate.DAY * IsoDate.DAY;
  next_day := fun d => d + IsoDate.DAY;
  short_date := short;
  next_day_later := fun d => Z.lt_add_pos_r IsoDate.DAY d eq_refl
|}.

End UtcTime.

(** Some products and a week of stock movements. *)
Module Stock.

Definition products : list Product :=
  [ {| quantity_in_stock := 2; minimum_stock_level := 5 |};
    {| quantity_in_stock := 40; minimum_stock_level := 10 |};
    {| quantity_in_stock := 0; minimum_stock_level := 0 |} ].

Definition movement (type : string) (q : Z) (at_ : string) : Transaction :=
  {| transaction_type := type; quantity := q; created_at := at_ |}.

Definition movements : list Transaction :=
  [ movement "incoming" 10 "2024-01-13";
    movement "outgoing" 4 "2024-01-14";
    movement "incoming" 7 "2024-01-15";
    movement "outgoing" 1 "2024-01-15";
    movement "incoming" 5 "someday";
    movement "correction" 3 "2024-01-15";
    movement "incoming" 2 "2024-01-17" ].

(** Saturday 13 January and Monday 15 January 2024, 08:00 UTC. *)
Definition saturday : Z := 1705132800000.
Definition monday : Z := 1705305600000.

End Stock.

(** ** Properties *)

Section Properties.

Context {D : DateAPI}.

Lemma log_log evs1 evs2 w : log evs2 (log evs1 w) = log (evs1 ++ evs2) w.
Proof. unfold log; simpl. now rewrite <- app_assoc. Qed.

(** The loop body takes exactly one of the paths of [Processed]. *)
Lemma process_invoice_Processed env now inv n w :
  Processed env now inv n w (fst (process_invoice env now inv n w))
                            (snd (process_invoice env now inv n w)).
Proof.
  unfold process_invoice.
  destruct (eligible now inv) eqn:El.
  - unfold eligible in El.
    apply andb_true_iff in El as [El Hcap].
    apply andb_true_iff in El as [Hdue Hwin].
    rewrite Hdue. apply negb_true_iff in Hwin, Hcap. rewrite Hwin, Hcap.
    assert (El : eligible now inv = true)
      by (unfold eligible; now rewrite Hdue, Hwin, Hcap).
    cbn [negb]. unfold bind at 1, select_profile, bind, emit, ret.
    destruct (recipient (profiles_single env inv)) as [user|] eqn:Hr;
      [|now apply No_recipient].
    unfold compose_html.
    destruct (amount inv) as [a|] eqn:Ha;
      [|unfold throw; now apply Composition_fault with user].
    cbv beta iota zeta delta
      [try_catch sendReminderEmail update_invoices bind emit ret throw never].
    change (reminder_mail (email user) subject_line (html_body a inv user))
      with (mail_for a inv user).
    change (or_zero (reminder_count inv)) with (count_of inv).
    destruct (resend_fetch env inv (mail_for a inv user))
      as [[|] text|e|] eqn:Hf;
      [destruct (invoices_update_error env inv) eqn:Hu|..];
      cbv beta iota delta [negb]; rewrite ?log_log; cbn [app fst snd].
    + eapply Sent_unrecorded; eassumption.
    + exact (Sent env now inv n w user a text El Hr Ha Hf Hu).
    + eapply Dispatch_failed; try eassumption. now rewrite Hf.
    + eapply Dispatch_failed; try eassumption. now rewrite Hf.
    + eapply Dispatch_pending; eassumption.
  - assert (H := El). unfold eligible in H.
    destruct (truthy_string (due_date inv)); cbn [negb andb] in *;
      [|now apply Passed_over].
    destruct (beyond_window now (new_Date (due_date inv))); cbn [negb andb] in *;
      [now apply Passed_over|].
    destruct (cap_reached inv); [now apply Passed_over|discriminate].
Qed.

(** A path determines what the loop body returns. *)
Ltac same_path :=
  repeat match goal with
    | H1 : ?x = Some ?u, H2 : ?x = Some ?v |- _ =>
        assert (u = v) by congruence; subst v; clear H2
    | H1 : ?x = ?o, H2 : context [?x] |- _ =>
        lazymatch o with
        | Fulfilled _ _ => idtac | Rejected _ => idtac | NeverSettles => idtac
        end;
        rewrite H1 in H2; cbn [dispatch_error] in H2
    end.

Ltac by_path env now inv n w :=
  generalize (process_invoice_Processed env now inv n w);
  destruct (process_invoice env now inv n w) as [c0 w0]; cbn [fst snd];
  inversion 1; subst; same_path; try congruence.

Lemma open_filter (rows : list Invoice) inv :
  In inv (filter (fun r => (status r =? "open")%string) rows)
  <-> In inv rows /\ status inv = "open".
Proof. rewrite filter_In. now rewrite String.eqb_eq. Qed.

(** *** The shape of a run *)

Lemma handler_preflight env now req w :
  method req = "OPTIONS" ->
  handler env now req w
  = (Normal {| resp_body := BodyText "ok"; resp_headers := corsHeaders;
               resp_status := 200 |}, w).
Proof. intros E. unfold handler. now rewrite E. Qed.

Lemma handler_read_failed env now req w e :
  method req <> "OPTIONS" ->
  invoices_select_error env = Some e ->
  handler env now req w
  = (Normal (error_response (message e)), log [SelectInvoices] w).
Proof.
  intros Hm He. unfold handler.
  apply String.eqb_neq in Hm. rewrite Hm.
  unfold try_catch, bind, select_open_invoices, bind, emit.
  now rewrite He.
Qed.

Lemma handler_batch env now req w :
  method req <> "OPTIONS" ->
  invoices_select_error env = None ->
  handler env now req w
  = match for_of (process_invoice env now)
                 (filter (fun r => (status r =? "open")%string) (invoices w))
                 0 (log [SelectInvoices] w) with
    | (Normal n, w') => (Normal (success_response n), w')
    | (Throw e, w') => (Normal (error_response (message e)), w')
    | (Pending, w') => (Pending, w')
    end.
Proof.
  intros Hm He. unfold handler.
  apply String.eqb_neq in Hm. rewrite Hm.
  unfold try_catch, bind at 1, select_open_invoices, bind at 1, emit.
  rewrite He. cbn [error data]. unfold bind, ret.
  cbn [invoices log].
  now destruct (for_of _ _ _ _) as [[n|e|] w'].
Qed.

(** The loop, by an invariant [I] over the invoices still to come and a
    condition [Q] on how it ends. *)
Lemma for_of_rule env now
  (I : list Invoice -> Z -> World -> Prop)
  (Q : Completion Z -> World -> Prop) :
  (forall n w, I [] n w -> Q (Normal n) w) ->
  (forall inv rest n w c w',
     I (inv :: rest) n w -> Processed env now inv n w c w' ->
     match c with
     | Normal n' => I rest n' w'
     | _ => Q c w'
     end) ->
  forall xs n w,
    I xs n w ->
    Q (fst (for_of (process_invoice env now) xs n w))
      (snd (for_of (process_invoice env now) xs n w)).
Proof.
  intros Hend Hstep xs. induction xs as [|inv rest IH]; intros n w HI.
  - now apply Hend.
  - cbn [for_of]. unfold bind.
    pose proof (Hstep inv rest n w _ _ HI
                  (process_invoice_Processed env now inv n w)) as H.
    destruct (process_invoice env now inv n w) as [[n'|e|] w'];
      cbn [fst snd] in *; auto.
Qed.

(** *** Passing over *)

Lemma passed_over env now inv n w :
  eligible now inv = false -> process_invoice env now inv n w = (Normal n, w).
Proof. intros El. by_path env now inv n w. Qed.

Lemma absent_not_eligible now inv :
  due_date inv = None \/ due_date inv = Some EmptyString -> eligible now inv = false.
Proof. unfold eligible. now intros [-> | ->]. Qed.

(** C10: an invoice without a due date ([null] or the empty string) is
    passed over before anything else happens to it: the loop body issues no
    request (no recipient lookup, no mail), leaves the table and the count
    of sent reminders as they are, and the loop goes on with the next
    invoice. *)
Theorem absent_due_date_is_skipped env now inv n w rest :
  due_date inv = None \/ due_date inv = Some EmptyString ->
  process_invoice env now inv n w = (Normal n, w)
  /\ for_of (process_invoice env now) (inv :: rest) n w
     = for_of (process_invoice env now) rest n w.
Proof.
  intros H. apply (absent_not_eligible now) in H.
  assert (E := passed_over env now inv n w H). split; [exact E|].
  cbn [for_of]. unfold bind. now rewrite E.
Qed.

(** C6: when the bulk read of the invoices fails, the run answers with
    status 500 and the message of the error; the read is the only request
    it has made, so no mail went out, and the table is as it was. *)
Theorem bulk_read_failure_is_fatal env now req w e :
  method req <> "OPTIONS" ->
  invoices_select_error env = Some e ->
  let out := handler env now req w in
  fst out = Normal (error_response (message e))
  /\ resp_status (error_response (message e)) = 500
  /\ issued w (snd out) = [SelectInvoices]
  /\ invoices (snd out) = invoices w.
Proof.
  intros Hm He out. subst out.
  rewrite (handler_read_failed env now req w e Hm He). cbn [fst snd].
  repeat split. unfold issued, log; cbn [trace].
  rewrite skipn_app, skipn_all, Nat.sub_diag. reflexivity.
Qed.

(** *** Failing dispatch *)

Lemma dispatch_failed env now inv n w user a err :
  eligible now inv = true ->
  recipient (profiles_single env inv) = Some user ->
  amount inv = Some a ->
  dispatch_error (resend_fetch env inv (mail_for a inv user)) = Some err ->
  process_invoice env now inv n w
  = (Normal n,
     log [SelectProfile inv; FetchResend inv (mail_for a inv user);
          ConsoleError "Reminder e-mail error:" err] w).
Proof. intros El Hr Ha Hf. by_path env now inv n w. Qed.

Lemma for_of_next env now inv rest n w n' w' :
  process_invoice env now inv n w = (Normal n', w') ->
  for_of (process_invoice env now) (inv :: rest) n w
  = for_of (process_invoice env now) rest n' w'.
Proof. intros E. cbn [for_of]. unfold bind. now rewrite E. Qed.

(** C5: when the provider answers an invoice's mail with a status outside
    2xx, or the call is rejected, the error is written to the console, the
    table (so the invoice's [reminder_count] and [reminder_sent_at]) is left
    as it was, the count of sent reminders is not raised (the invoice is
    not among those mailed), and the loop goes on with the next invoice. *)
Theorem failed_dispatch_changes_nothing env now inv n w user a err rest :
  eligible now inv = true ->
  recipient (profiles_single env inv) = Some user ->
  amount inv = Some a ->
  dispatch_error (resend_fetch env inv (mail_for a inv user)) = Some err ->
  exists w',
    process_invoice env now inv n w = (Normal n, w')
    /\ invoices w' = invoices w
    /\ issued w w' = [SelectProfile inv; FetchResend inv (mail_for a inv user);
                      ConsoleError "Reminder e-mail error:" err]
    /\ dispatch_ok env now inv = false
    /\ for_of (process_invoice env now) (inv :: rest) n w
       = for_of (process_invoice env now) rest n w'.
Proof.
  intros El Hr Ha Hf.
  pose proof (dispatch_failed env now inv n w user a err El Hr Ha Hf) as E.
  eexists. split; [exact E|]. split; [reflexivity|]. split; [|split].
  - unfold issued, log; cbn [trace].
    now rewrite skipn_app, skipn_all, Nat.sub_diag.
  - unfold dispatch_ok. rewrite El, Hr, Ha. cbn [andb].
    now destruct (resend_fetch env inv (mail_for a inv user)) as [[|] t|e|].
  - now apply for_of_next.
Qed.

Lemma issued_log evs w : issued w (log evs w) = evs.
Proof.
  unfold issued, log; cbn [trace].
  now rewrite skipn_app, skipn_all, Nat.sub_diag.
Qed.

(** *** A pending dispatch *)

Lemma dispatch_pending env now inv n w user a :
  eligible now inv = true ->
  recipient (profiles_single env inv) = Some user ->
  amount inv = Some a ->
  resend_fetch env inv (mail_for a inv user) = NeverSettles ->
  process_invoice env now inv n w
  = (Pending,
     log [SelectProfile inv; FetchResend inv (mail_for a inv user)] w).
Proof. intros El Hr Ha Hf. by_path env now inv n w. Qed.

Lemma sendReminderEmail_pending env inv to_ subject_ html_ w :
  fst (sendReminderEmail env inv to_ subject_ html_ w) = Pending
  <-> resend_fetch env inv (reminder_mail to_ subject_ html_) = NeverSettles.
Proof.
  unfold sendReminderEmail, bind, emit.
  destruct (resend_fetch env inv (reminder_mail to_ subject_ html_))
    as [[|] text|e|]; cbn; split; congruence.
Qed.

(** C7, as the code has it: the dispatch call carries no timeout, and
    [sendReminderEmail] comes to an end only as the provider request
    settles.  When the request settles as a failure, no update is issued,
    the table is left as it was and the loop goes on with the next invoice;
    while the request does not settle, neither the loop body nor the loop
    comes to an end. *)
Theorem dispatch_waits_for_the_provider env now inv n w user a rest :
  eligible now inv = true ->
  recipient (profiles_single env inv) = Some user ->
  amount inv = Some a ->
  (forall to_ subject_ html_ w1,
     fst (sendReminderEmail env inv to_ subject_ html_ w1) = Pending
     <-> resend_fetch env inv (reminder_mail to_ subject_ html_)
         = NeverSettles)
  /\ (forall err,
       dispatch_error (resend_fetch env inv (mail_for a inv user)) = Some err ->
       exists w',
         process_invoice env now inv n w = (Normal n, w')
         /\ invoices w' = invoices w
         /\ (forall sent_at c,
               ~ In (UpdateInvoices inv sent_at c) (issued w w'))
         /\ for_of (process_invoice env now) (inv :: rest) n w
            = for_of (process_invoice env now) rest n w')
  /\ (resend_fetch env inv (mail_for a inv user) = NeverSettles ->
      fst (process_invoice env now inv n w) = Pending
      /\ fst (for_of (process_invoice env now) (inv :: rest) n w) = Pending).
Proof.
  intros El Hr Ha. split; [|split].
  - intros. apply sendReminderEmail_pending.
  - intros err Hf.
    pose proof (dispatch_failed env now inv n w user a err El Hr Ha Hf) as E.
    eexists. split; [exact E|]. split; [reflexivity|]. split.
    + intros sent_at c. rewrite issued_log.
      intros [H|[H|[H|[]]]]; discriminate.
    + now apply for_of_next.
  - intros Hf.
    pose proof (dispatch_pending env now inv n w user a El Hr Ha Hf) as E.
    split; [now rewrite E|]. cbn [for_of]. unfold bind. now rewrite E.
Qed.

(** *** A rejected update *)

Lemma sent_unrecorded env now inv n w user a text e :
  eligible now inv = true ->
  recipient (profiles_single env inv) = Some user ->
  amount inv = Some a ->
  resend_fetch env inv (mail_for a inv user) = Fulfilled true text ->
  invoices_update_error env inv = Some e ->
  process_invoice env now inv n w
  = (Normal (n + 1),
     log [SelectProfile inv; FetchResend inv (mail_for a inv user);
          UpdateInvoices inv (Date_toISOString now) (count_of inv + 1)] w).
Proof. intros El Hr Ha Hf Hu. by_path env now inv n w. Qed.

(** C8, as the code has it: when the store rejects the update that follows
    an accepted mail, the error is not looked at.  The loop body issues the
    update once and nothing after it (no console line, no second attempt),
    the table is left as it was, and the invoice is counted as sent all the
    same. *)
Theorem rejected_update_goes_unnoticed env now inv n w user a text e :
  eligible now inv = true ->
  recipient (profiles_single env inv) = Some user ->
  amount inv = Some a ->
  resend_fetch env inv (mail_for a inv user) = Fulfilled true text ->
  invoices_update_error env inv = Some e ->
  exists w',
    process_invoice env now inv n w = (Normal (n + 1), w')
    /\ invoices w' = invoices w
    /\ issued w w'
       = [SelectProfile inv; FetchResend inv (mail_for a inv user);
          UpdateInvoices inv (Date_toISOString now) (count_of inv + 1)]
    /\ (forall label err, ~ In (ConsoleError label err) (issued w w')).
Proof.
  intros El Hr Ha Hf Hu.
  pose proof (sent_unrecorded env now inv n w user a text e El Hr Ha Hf Hu)
    as E.
  eexists. split; [exact E|]. split; [reflexivity|].
  rewrite issued_log. split; [reflexivity|].
  intros label err [H|[H|[H|[]]]]; discriminate.
Qed.

(** *** The result of a run *)

(** C9, as the code has it: when the bulk read succeeds and the loop body
    comes to an end on every open invoice (no composition throws, every
    provider call settles), the run answers with status 200 and the body
    [{ success: true, remindersSent: n }], [n] being the number of open
    invoices whose mail the provider accepted. *)
Theorem completed_run_reports_sent_count env now req w :
  method req <> "OPTIONS" ->
  invoices_select_error env = None ->
  (forall inv, In inv (invoices w) -> status inv = "open" ->
               completes env now inv) ->
  let n := Z.of_nat (List.length
             (filter (dispatch_ok env now)
                (filter (fun r => (status r =? "open")%string) (invoices w)))) in
  fst (handler env now req w)
  = Normal {| resp_body := BodyJSON [("success", JBool true);
                                     ("remindersSent", JNumber n)];
              resp_headers := json_headers;
              resp_status := 200 |}.
Proof.
  intros Hm He Hc n. rewrite (handler_batch env now req w Hm He).
  set (open := filter _ (invoices w)) in *.
  assert (Hopen : forall inv, In inv open -> completes env now inv).
  { intros inv Hin. apply open_filter in Hin as [Hin Hs]. now apply Hc. }
  clearbody open.
  pose proof (for_of_rule env now
    (fun rest k _ =>
       (forall inv, In inv rest -> completes env now inv)
       /\ k + Z.of_nat (List.length (filter (dispatch_ok env now) rest))
          = Z.of_nat (List.length (filter (dispatch_ok env now) open)))
    (fun c _ => c = Normal n)) as R.
  cbv beta in R.
  assert (E : fst (for_of (process_invoice env now) open 0
                     (log [SelectInvoices] w)) = Normal n).
  { apply R; clear R.
    - intros k _ [_ Hk]. cbn in Hk. subst n. f_equal. lia.
    - intros inv rest k w1 c w2 [Hall Hk] HP.
      assert (Hinv : completes env now inv) by (apply Hall; now left).
      assert (Hrest : forall x, In x rest -> completes env now x)
        by (intros x Hx; apply Hall; now right).
      cbn [filter] in Hk. unfold dispatch_ok at 1 in Hk.
      inversion HP; subst; clear HP;
        repeat match goal with
          | H : eligible now inv = _ |- _ => rewrite H in Hk
          | H : recipient _ = _ |- _ => rewrite H in Hk
          | H : amount inv = _ |- _ => rewrite H in Hk
          | H : resend_fetch _ _ _ = _ |- _ => rewrite H in Hk
          end; cbn [andb] in Hk.
      + now split.
      + now split.
      + destruct (Hinv user) as (a & Ha & _); congruence.
      + split; [assumption|].
        destruct (resend_fetch env inv (mail_for a inv user)) as [[|] t|e0|];
          cbn in *; try discriminate; assumption.
      + destruct (Hinv user) as (a' & Ha' & Hs); try assumption.
        assert (a' = a) by congruence. subst a'. contradiction.
      + split; [assumption|]. cbn [List.length] in Hk. lia.
      + split; [assumption|]. cbn [List.length] in Hk. lia.
    - split; [assumption|]. lia. }
  destruct (for_of _ _ _ _) as [[k|e|] w']; cbn [fst] in E;
    try discriminate.
  injection E as ->. reflexivity.
Qed.

(** *** The selection policy *)

Lemma cap_reached_false inv : cap_reached inv = false <-> count_of inv < 3.
Proof.
  unfold cap_reached, count_of, or_zero, truthy_number.
  destruct (reminder_count inv) as [c|]; [|split; [lia|reflexivity]].
  destruct (Z.eqb_spec c 0) as [->|Hc]; cbn [negb andb].
  - split; [lia|reflexivity].
  - rewrite Z.leb_gt. reflexivity.
Qed.

Lemma beyond_window_false now d :
  beyond_window now (Some d) = false <-> d - now <= WEEK.
Proof.
  unfold beyond_window, WEEK.
  destruct (Z.ltb_spec now d), (Z.ltb_spec (7 * 24 * 60 * 60 * 1000) (d - now));
    cbn [andb]; split; intros; try lia; try reflexivity; discriminate.
Qed.

Lemma truthy_string_true v :
  truthy_string v = true <-> exists s, v = Some s /\ s <> EmptyString.
Proof.
  destruct v as [s|]; cbn.
  - rewrite negb_true_iff, String.eqb_neq. split.
    + intros H. now exists s.
    + now intros (s' & [= ->] & H).
  - split; [discriminate|now intros (s & H & _)].
Qed.

(** What the three guards let through. *)
Lemma eligible_true now inv :
  eligible now inv = true
  <-> exists s, due_date inv = Some s /\ s <> EmptyString
                /\ beyond_window now (Date_parse s) = false
                /\ count_of inv < 3.
Proof.
  unfold eligible. rewrite !andb_true_iff, !negb_true_iff.
  rewrite truthy_string_true, cap_reached_false. split.
  - intros [[(s & Hs & Hne) Hw] Hc]. exists s. rewrite Hs in Hw. auto.
  - intros (s & Hs & Hne & Hw & Hc). rewrite Hs. cbn [new_Date].
    repeat split; eauto.
Qed.

(** The requests of one pass through the loop body: all of them are for the
    invoice at hand, which the guards let through; the recipient lookup is
    among them whenever the guards let the invoice through; and the table
    changes only by the update that follows an accepted mail. *)
Lemma Processed_requests env now inv n w c w' :
  Processed env now inv n w c w' ->
  exists evs,
    trace w' = (trace w ++ evs)%list
    /\ (forall e x, In e evs -> about e = Some x ->
                    x = inv /\ eligible now inv = true)
    /\ (eligible now inv = true -> In (SelectProfile inv) evs)
    /\ (invoices w' = invoices w
        \/ (invoices w' = reminded now inv (invoices w)
            /\ eligible now inv = true
            /\ exists m text,
                 In (FetchResend inv m) evs
                 /\ resend_fetch env inv m = Fulfilled true text)).
Proof.
  inversion 1; subst.
  { exists []. split; [cbn; now rewrite app_nil_r|].
    split; [intros ev x []|]. split; [congruence|now left]. }
  all: eexists; (split; [reflexivity|]);
    (split; [intros ev x Hin Hab; split; [|assumption]; cbn [In] in Hin;
             intuition (subst; cbn in *; congruence)|]);
    (split; [intros _; now left|]);
    try (left; reflexivity).
  right. split; [reflexivity|]. split; [assumption|].
  do 2 eexists. split; [|eassumption]. cbn; auto.
Qed.

Lemma issued_app w w' evs :
  trace w' = (trace w ++ evs)%list -> issued w w' = evs.
Proof.
  intros E. unfold issued. rewrite E.
  now rewrite skipn_app, skipn_all, Nat.sub_diag.
Qed.

(** The requests of a whole run are the bulk read and requests for open
    invoices of the table that the guards let through. *)
Lemma handler_requests env now req w :
  exists evs,
    trace (snd (handler env now req w)) = (trace w ++ evs)%list
    /\ forall e x, In e evs -> about e = Some x ->
         In x (invoices w) /\ status x = "open" /\ eligible now x = true.
Proof.
  destruct (String.eqb_spec (method req) "OPTIONS") as [Hm|Hm].
  { rewrite (handler_preflight env now req w Hm). exists [].
    split; [cbn; now rewrite app_nil_r|intros e x []]. }
  destruct (invoices_select_error env) as [err|] eqn:He.
  { rewrite (handler_read_failed env now req w err Hm He).
    exists [SelectInvoices]. split; [reflexivity|].
    intros e x [<-|[]]; discriminate. }
  rewrite (handler_batch env now req w Hm He).
  set (open := filter _ (invoices w)).
  pose proof (for_of_rule env now
    (fun rest _ w1 =>
       (forall x, In x rest -> In x open)
       /\ exists evs,
           trace w1 = (trace w ++ evs)%list
           /\ forall e x, In e evs -> about e = Some x ->
                In x open /\ eligible now x = true)
    (fun _ w1 =>
       exists evs,
         trace w1 = (trace w ++ evs)%list
         /\ forall e x, In e evs -> about e = Some x ->
              In x open /\ eligible now x = true)) as R.
  cbv beta in R.
  assert (Q : exists evs,
             trace (snd (for_of (process_invoice env now) open 0
                           (log [SelectInvoices] w)))
             = (trace w ++ evs)%list
             /\ forall e x, In e evs -> about e = Some x ->
                  In x open /\ eligible now x = true).
  { apply R; clear R.
    - intros _ w1 [_ H]. exact H.
    - intros inv rest n w1 c w2 [Hsub (evs & Ht & Hev)] HP.
      apply Processed_requests in HP as (evs' & Ht' & Hev' & _).
      assert (Q : exists evs0,
                 trace w2 = (trace w ++ evs0)%list
                 /\ forall e x, In e evs0 -> about e = Some x ->
                      In x open /\ eligible now x = true).
      { exists (evs ++ evs')%list. split.
        - now rewrite Ht', Ht, app_assoc.
        - intros e x Hin Hab. apply in_app_or in Hin as [Hin|Hin].
          + eauto.
          + destruct (Hev' e x Hin Hab) as [-> El]. split; [|exact El].
            apply Hsub. now left. }
      destruct c; [split; [|exact Q]|exact Q|exact Q].
      intros x Hx. apply Hsub. now right.
    - split; [auto|]. exists [SelectInvoices]. split; [reflexivity|].
      intros e x [<-|[]]; discriminate. }
  destruct Q as (evs & Ht & Hev).
  exists evs. split.
  - now destruct (for_of _ _ _ _) as [[k|e|] w'].
  - intros e x Hin Hab. destruct (Hev e x Hin Hab) as [Hx El].
    apply open_filter in Hx as [Hx Hs]. auto.
Qed.

(** X22: every request a run makes for an invoice (the recipient lookup,
    the mail, the update) is for an invoice of the table whose status is
    [open], whose reminder count is below 3 and whose [due_date] is
    present; and when that string reads as a date, the date is past or at
    most 7 days ahead.  Of a [due_date] that does not read as a date the
    window test excludes nothing. *)
Theorem requests_only_for_selected_invoices env now req w e inv :
  In e (issued w (snd (handler env now req w))) ->
  about e = Some inv ->
  In inv (invoices w)
  /\ status inv = "open"
  /\ count_of inv < 3
  /\ exists s, due_date inv = Some s
               /\ forall d, Date_parse s = Some d ->
                            d <= now \/ d - now <= WEEK.
Proof.
  intros Hin Hab.
  destruct (handler_requests env now req w) as (evs & Ht & Hev).
  rewrite (issued_app _ _ _ Ht) in Hin.
  destruct (Hev e inv Hin Hab) as (Hx & Hs & El).
  apply eligible_true in El as (s & Hd & _ & Hw & Hc).
  repeat split; try assumption.
  exists s. split; [assumption|]. intros d Hp. rewrite Hp in Hw.
  right. now apply beyond_window_false.
Qed.

Lemma due_is_eligible now inv s d :
  due_date inv = Some s -> Date_parse s = Some d ->
  d <= now \/ d - now <= WEEK -> count_of inv < 3 ->
  eligible now inv = true.
Proof.
  intros Hs Hp Hd Hc. apply eligible_true. exists s.
  repeat split; try assumption.
  - intros ->. rewrite Date_parse_empty in Hp. discriminate.
  - rewrite Hp. apply beyond_window_false. unfold WEEK in *. lia.
Qed.

Lemma eligible_is_looked_up env now inv n w :
  eligible now inv = true ->
  exists c w' evs,
    process_invoice env now inv n w = (c, w')
    /\ issued w w' = SelectProfile inv :: evs.
Proof.
  intros El. pose proof (process_invoice_Processed env now inv n w) as HP.
  destruct (process_invoice env now inv n w) as [c w']. cbn [fst snd] in HP.
  exists c, w'.
  inversion HP; subst; try congruence; eexists;
    (split; [reflexivity|]);
    try (rewrite issued_log; reflexivity).
  apply issued_app. reflexivity.
Qed.

(** Once a run has gone through the whole batch, it has looked up the
    recipient of every open invoice the guards let through. *)
Lemma completed_run_lookups env now req w resp :
  method req <> "OPTIONS" ->
  fst (handler env now req w) = Normal resp ->
  resp_status resp = 200 ->
  forall x, In x (invoices w) -> status x = "open" ->
            eligible now x = true ->
            In (SelectProfile x) (issued w (snd (handler env now req w))).
Proof.
  intros Hm Hr H200.
  destruct (invoices_select_error env) as [err|] eqn:He.
  { rewrite (handler_read_failed env now req w err Hm He) in Hr.
    injection Hr as <-. discriminate. }
  rewrite (handler_batch env now req w Hm He) in Hr |- *.
  set (open := filter _ (invoices w)) in *.
  pose proof (for_of_rule env now
    (fun rest _ w1 =>
       exists evs,
         trace w1 = (trace w ++ evs)%list
         /\ forall x, In x open -> eligible now x = true ->
              In x rest \/ In (SelectProfile x) evs)
    (fun c w1 =>
       match c with
       | Normal _ =>
           exists evs,
             trace w1 = (trace w ++ evs)%list
             /\ forall x, In x open -> eligible now x = true ->
                  In (SelectProfile x) evs
       | _ => True
       end)) as R.
  cbv beta in R.
  assert (Q : match fst (for_of (process_invoice env now) open 0
                           (log [SelectInvoices] w)) with
              | Normal _ =>
                  exists evs,
                    trace (snd (for_of (process_invoice env now) open 0
                                  (log [SelectInvoices] w)))
                    = (trace w ++ evs)%list
                    /\ forall x, In x open -> eligible now x = true ->
                         In (SelectProfile x) evs
              | _ => True
              end).
  { apply R; clear R.
    - intros _ w1 (evs & Ht & Hx). exists evs. split; [exact Ht|].
      intros x Ho El. now destruct (Hx x Ho El).
    - intros inv rest n w1 c w2 (evs & Ht & Hx) HP.
      apply Processed_requests in HP as (evs' & Ht' & _ & Hl & _).
      destruct c; [|exact I|exact I].
      exists (evs ++ evs')%list. split; [now rewrite Ht', Ht, app_assoc|].
      intros x Ho El. rewrite in_app_iff.
      destruct (Hx x Ho El) as [[->|Hin]|Hin]; auto.
    - exists [SelectInvoices]. split; [reflexivity|]. auto. }
  clear R.
  destruct (for_of _ _ _ _) as [[k|e|] w'] eqn:Ef; cbn [fst snd] in *;
    try discriminate.
  2:{ injection Hr as <-. discriminate. }
  destruct Q as (evs & Ht & Hx).
  intros x Hin Hs El. rewrite (issued_app _ _ _ Ht).
  apply Hx; [|exact El]. now apply open_filter.
Qed.

Lemma for_of_app env now pre post n w :
  for_of (process_invoice env now) (pre ++ post) n w
  = match for_of (process_invoice env now) pre n w with
    | (Normal n', w') => for_of (process_invoice env now) post n' w'
    | r => r
    end.
Proof.
  revert n w. induction pre as [|x pre IH]; intros n w; [reflexivity|].
  cbn [app for_of]. unfold bind.
  destruct (process_invoice env now x n w) as [[n'|e|] w']; auto.
Qed.

(** The loop only adds to the trace. *)
Lemma for_of_extends env now xs : forall n w,
  exists evs,
    trace (snd (for_of (process_invoice env now) xs n w))
    = (trace w ++ evs)%list.
Proof.
  induction xs as [|x xs IH]; intros n w.
  - exists []. cbn. now rewrite app_nil_r.
  - cbn [for_of]. unfold bind.
    pose proof (process_invoice_Processed env now x n w) as HP.
    apply Processed_requests in HP as (evs & Ht & _).
    destruct (process_invoice env now x n w) as [[n'|e|] w'];
      cbn [fst snd] in *; eauto.
    destruct (IH n' w') as (evs' & Ht'). exists (evs ++ evs')%list.
    now rewrite Ht', Ht, app_assoc.
Qed.

(** Over invoices on which the loop body comes to an end, the loop comes
    to an end. *)
Lemma for_of_completes env now xs :
  (forall x, In x xs -> completes env now x) ->
  forall n w, exists n' w',
    for_of (process_invoice env now) xs n w = (Normal n', w').
Proof.
  induction xs as [|x xs IH]; intros Hc n w;
    [do 2 eexists; reflexivity|].
  cbn [for_of]. unfold bind.
  pose proof (process_invoice_Processed env now x n w) as HP.
  assert (Hx : completes env now x) by (apply Hc; now left).
  assert (Hxs : forall y, In y xs -> completes env now y)
    by (intros y Hy; apply Hc; now right).
  destruct (process_invoice env now x n w) as [[n'|e|] w'];
    cbn [fst snd] in HP.
  - now apply IH.
  - exfalso. inversion HP; subst.
    destruct (Hx user) as (a & Ha & _); congruence.
  - exfalso. inversion HP; subst.
    destruct (Hx user) as (a' & Ha' & Hs); try assumption.
    assert (a' = a) by congruence. subst a'. contradiction.
Qed.

(** A run reaches an invoice that the guards let through when the bulk
    read succeeds and the loop body comes to an end on the open invoices
    before it. *)
Lemma reached_invoice_is_looked_up env now req w pre inv post :
  method req <> "OPTIONS" ->
  invoices_select_error env = None ->
  invoices w = (pre ++ inv :: post)%list ->
  (forall x, In x pre -> status x = "open" -> completes env now x) ->
  status inv = "open" ->
  eligible now inv = true ->
  In (SelectProfile inv) (issued w (snd (handler env now req w))).
Proof.
  intros Hm He Hsplit Hpre Hs El.
  rewrite (handler_batch env now req w Hm He), Hsplit, filter_app.
  cbn [filter]. apply String.eqb_eq in Hs. rewrite Hs.
  set (before := filter _ pre). set (after := filter _ post).
  rewrite for_of_app.
  destruct (for_of_completes env now before) with (n := 0)
    (w := log [SelectInvoices] w) as (n1 & w1 & E1).
  { intros x Hx. apply open_filter in Hx as [Hx Hsx]. now apply Hpre. }
  destruct (for_of_extends env now before 0 (log [SelectInvoices] w))
    as (evs1 & Ht1).
  rewrite E1 in Ht1 |- *. cbn [snd] in Ht1.
  cbn [for_of]. unfold bind.
  pose proof (process_invoice_Processed env now inv n1 w1) as HP.
  apply Processed_requests in HP as (evs2 & Ht2 & _ & Hl & _).
  specialize (Hl El).
  assert (Hend : exists evs3,
             trace (snd (match process_invoice env now inv n1 w1 with
                         | (Normal a, w') =>
                             for_of (process_invoice env now) after a w'
                         | (Throw e, w') => (Throw e, w')
                         | (Pending, w') => (Pending, w')
                         end))
             = (trace (snd (process_invoice env now inv n1 w1)) ++ evs3)%list).
  { destruct (process_invoice env now inv n1 w1) as [[n2|e|] w2];
      cbn [snd].
    - apply for_of_extends.
    - exists []. now rewrite app_nil_r.
    - exists []. now rewrite app_nil_r. }
  destruct Hend as (evs3 & Ht3).
  assert (Htr : trace (snd (let (c, w') := process_invoice env now inv n1 w1 in
                            match c with
                            | Normal a =>
                                for_of (process_invoice env now) after a w'
                            | Throw e => (Throw e, w')
                            | Pending => (Pending, w')
                            end))
                = (trace w ++ [SelectInvoices] ++ evs1 ++ evs2 ++ evs3)%list).
  { rewrite Ht3, Ht2, Ht1. cbn [log trace]. now rewrite <- !app_assoc. }
  assert (Hfinal : forall r : Completion Z * World,
             snd (let (c, w') := r in
                  match c with
                  | Normal n => (Normal (success_response n), w')
                  | Throw e => (Normal (error_response (message e)), w')
                  | Pending => (Pending, w')
                  end) = snd r)
    by (intros [[k|e|] w']; reflexivity).
  rewrite Hfinal, (issued_app _ _ _ Htr). rewrite !in_app_iff. auto.
Qed.

(** C4, as the code has it: an invoice of the table with status [open], a
    reminder count below 3 and a due date that is today, past or at most 7
    days ahead is selected by every run that gets as far as that invoice.
    The bulk read returns it; the loop body issues the recipient lookup for
    it as its first request; a run whose bulk read succeeds and whose loop
    body comes to an end on the open invoices before it (no provider call
    left pending) looks up its recipient; and so has every run that
    answered with status 200. *)
Theorem due_invoice_is_selected env now w inv s d :
  In inv (invoices w) ->
  status inv = "open" ->
  count_of inv < 3 ->
  due_date inv = Some s ->
  Date_parse s = Some d ->
  d <= now \/ d - now <= WEEK ->
  In inv (filter (fun r => (status r =? "open")%string) (invoices w))
  /\ (forall n w1, exists c w2 evs,
        process_invoice env now inv n w1 = (c, w2)
        /\ issued w1 w2 = SelectProfile inv :: evs)
  /\ (forall req pre post,
        method req <> "OPTIONS" ->
        invoices_select_error env = None ->
        invoices w = (pre ++ inv :: post)%list ->
        (forall x, In x pre -> status x = "open" -> completes env now x) ->
        In (SelectProfile inv) (issued w (snd (handler env now req w))))
  /\ (forall req resp,
        method req <> "OPTIONS" ->
        fst (handler env now req w) = Normal resp ->
        resp_status resp = 200 ->
        In (SelectProfile inv) (issued w (snd (handler env now req w)))).
Proof.
  intros Hin Hs Hc Hd Hp Hw.
  pose proof (due_is_eligible now inv s d Hd Hp Hw Hc) as El.
  split; [now apply open_filter|]. split; [|split].
  - intros n w1. now apply eligible_is_looked_up.
  - intros req pre post Hm He Hsplit Hpre.
    now apply (reached_invoice_is_looked_up env now req w pre inv post).
  - intros req resp Hm Hr H200.
    now apply (completed_run_lookups env now req w resp).
Qed.

(** *** The reminder cap *)

Lemma count_of_with_reminder sent_at c r :
  count_of (with_reminder sent_at c r) = c.
Proof.
  unfold count_of, or_zero, truthy_number; cbn.
  now destruct (Z.eqb_spec c 0).
Qed.

(** With distinct ids, a row of the table is known by its id. *)
Lemma row_of_id (rows : list Invoice) r1 r2 :
  NoDup (map id rows) -> In r1 rows -> In r2 rows -> id r1 = id r2 ->
  r1 = r2.
Proof.
  induction rows as [|x rows IH]; cbn; [contradiction|].
  intros Hnd [->|H1] [->|H2] E; inversion Hnd as [|? ? Hfresh Hrest];
    subst; auto.
  - exfalso. apply Hfresh. rewrite E. now apply in_map.
  - exfalso. apply Hfresh. rewrite <- E. now apply in_map.
Qed.

(** The open rows of a table with distinct ids have distinct ids. *)
Lemma open_rows_distinct (rows : list Invoice) :
  NoDup (map id rows) ->
  NoDup (map id (filter (fun r => (status r =? "open")%string) rows)).
Proof.
  induction rows as [|x rows IH]; cbn; [auto|].
  intros Hnd. inversion Hnd as [|? ? Hfresh Hrest]; subst.
  destruct (status x =? "open")%string; cbn; auto.
  constructor; auto. intros Hin. apply Hfresh.
  apply in_map_iff in Hin as (y & E & Hy). apply filter_In in Hy as [Hy _].
  rewrite <- E. now apply in_map.
Qed.

Lemma Forall2_map_r_In {A B} (R R' : A -> B -> Prop) (f : B -> B) l1 l2 :
  Forall2 R l1 l2 ->
  (forall a b, In a l1 -> R a b -> R' a (f b)) ->
  Forall2 R' l1 (map f l2).
Proof.
  induction 1 as [|a b l1 l2 Hab _ IH]; cbn; intros Hf; constructor.
  - apply Hf; [now left|assumption].
  - apply IH. intros a' b' Hin. apply Hf. now right.
Qed.

Lemma Forall2_same {A} (R : A -> A -> Prop) (l : list A) :
  (forall a, R a a) -> Forall2 R l l.
Proof. intros HR. induction l; constructor; auto. Qed.

Lemma raised_more env now evs evs' old new :
  raised env now evs old new -> raised env now (evs ++ evs') old new.
Proof.
  intros (Hc & Hn & Hk & m & text & Hin & Hf). repeat split; try assumption.
  exists m, text. split; [|assumption]. apply in_or_app. now left.
Qed.

Lemma sent env now inv n w user a text :
  eligible now inv = true ->
  recipient (profiles_single env inv) = Some user ->
  amount inv = Some a ->
  resend_fetch env inv (mail_for a inv user) = Fulfilled true text ->
  invoices_update_error env inv = None ->
  process_invoice env now inv n w
  = (Normal (n + 1),
     {| invoices := reminded now inv (invoices w);
        trace := (trace w ++
          [SelectProfile inv; FetchResend inv (mail_for a inv user);
           UpdateInvoices inv (Date_toISOString now) (count_of inv + 1)])%list |}).
Proof. intros El Hr Ha Hf Hu. by_path env now inv n w. Qed.

(** A run never lifts a count above the cap. *)
Lemma handler_capped env now req w :
  Forall capped (invoices w) ->
  Forall capped (invoices (snd (handler env now req w))).
Proof.
  intros Hcap.
  destruct (String.eqb_spec (method req) "OPTIONS") as [Hm|Hm].
  { now rewrite (handler_preflight env now req w Hm). }
  destruct (invoices_select_error env) as [err|] eqn:He.
  { now rewrite (handler_read_failed env now req w err Hm He). }
  rewrite (handler_batch env now req w Hm He).
  set (open := filter _ (invoices w)).
  pose proof (for_of_rule env now
    (fun _ _ w1 => Forall capped (invoices w1))
    (fun _ w1 => Forall capped (invoices w1))) as R.
  cbv beta in R.
  assert (Q : Forall capped
                (invoices (snd (for_of (process_invoice env now) open 0
                                  (log [SelectInvoices] w))))).
  { apply R; clear R; [auto| |exact Hcap].
    intros inv rest n w1 c w2 Hc HP.
    apply Processed_requests in HP as (evs & _ & _ & _ & Ht).
    assert (Forall capped (invoices w2)).
    { destruct Ht as [->|(-> & El & _)]; [assumption|].
      apply eligible_true in El as (s & _ & _ & _ & Hlt).
      unfold reminded. apply Forall_map. rewrite Forall_forall in *.
      intros r Hr. destruct (id r =? id inv)%string; [|auto].
      unfold capped. rewrite count_of_with_reminder. lia. }
    now destruct c. }
  now destruct (for_of _ _ _ _) as [[k|e|] w'].
Qed.

(** With ids that tell the rows apart, a run leaves each row as it was or
    raises its count by one after an accepted mail. *)
Lemma handler_table env now req w :
  NoDup (map id (invoices w)) ->
  exists evs,
    trace (snd (handler env now req w)) = (trace w ++ evs)%list
    /\ Forall2 (count_step env now evs)
               (invoices w) (invoices (snd (handler env now req w))).
Proof.
  intros Hnd.
  assert (Hsame : forall evs, Forall2 (count_step env now evs)
                                (invoices w) (invoices w))
    by (intros evs; apply Forall2_same; now left).
  destruct (String.eqb_spec (method req) "OPTIONS") as [Hm|Hm].
  { rewrite (handler_preflight env now req w Hm). exists [].
    split; [cbn; now rewrite app_nil_r|apply Hsame]. }
  destruct (invoices_select_error env) as [err|] eqn:He.
  { rewrite (handler_read_failed env now req w err Hm He).
    exists [SelectInvoices]. split; [reflexivity|apply Hsame]. }
  rewrite (handler_batch env now req w Hm He).
  set (open := filter _ (invoices w)).
  set (R := fun (rest : list Invoice) evs old cur =>
              cur = old
              \/ (~ In (id old) (map id rest) /\ raised env now evs old cur)).
  pose proof (for_of_rule env now
    (fun rest _ w1 =>
       (forall x, In x rest -> In x (invoices w))
       /\ NoDup (map id rest)
       /\ exists evs,
           trace w1 = (trace w ++ evs)%list
           /\ Forall2 (R rest evs) (invoices w) (invoices w1))
    (fun _ w1 =>
       exists evs,
         trace w1 = (trace w ++ evs)%list
         /\ Forall2 (count_step env now evs) (invoices w) (invoices w1)))
    as Rule.
  cbv beta in Rule.
  assert (Hweak : forall rest evs l,
             Forall2 (R rest evs) (invoices w) l ->
             Forall2 (count_step env now evs) (invoices w) l).
  { intros rest evs l. apply Forall2_impl.
    intros a b [->|[_ H]]; [now left|now right]. }
  assert (Q : exists evs,
             trace (snd (for_of (process_invoice env now) open 0
                           (log [SelectInvoices] w)))
             = (trace w ++ evs)%list
             /\ Forall2 (count_step env now evs) (invoices w)
                  (invoices (snd (for_of (process_invoice env now) open 0
                                    (log [SelectInvoices] w))))).
  { apply Rule; clear Rule.
    - intros _ w1 (_ & _ & evs & Ht & HF). exists evs. eauto.
    - intros inv rest n w1 c w2 (Hsub & Hnd' & evs & Ht & HF) HP.
      apply Processed_requests in HP as (evs' & Ht' & _ & _ & Htab).
      assert (Hinv : In inv (invoices w)) by (apply Hsub; now left).
      inversion Hnd' as [|? ? Hnotin Hnd'']; subst.
      assert (Next : Forall2 (R rest (evs ++ evs')%list)
                       (invoices w) (invoices w2)).
      { destruct Htab as [->|(-> & El & m & text & Hin & Hf)].
        - revert HF. apply Forall2_impl.
          intros a b [->|[Hn Hr]]; [now left|right]. split.
          + intros Hi. apply Hn. now right.
          + now apply raised_more.
        - unfold reminded. eapply Forall2_map_r_In; [exact HF|].
          intros a b Ha [->|[Hn Hr]].
          + destruct (String.eqb_spec (id a) (id inv)) as [E|E];
              [|now left].
            assert (a = inv) by (apply (row_of_id (invoices w)); assumption).
            subst a.
            right. split; [assumption|].
            apply eligible_true in El as (s & _ & _ & _ & Hlt).
            repeat split; try assumption.
            * apply count_of_with_reminder.
            * exists m, text. split; [|assumption].
              apply in_or_app. now right.
          + assert (Eid : id b = id a)
              by (destruct Hr as (_ & -> & _); reflexivity).
            rewrite Eid.
            destruct (String.eqb_spec (id a) (id inv)) as [E|E].
            * exfalso. apply Hn. left. now rewrite E.
            * right. split; [intros Hi; apply Hn; now right|].
              now apply raised_more. }
      assert (Ht2 : trace w2 = (trace w ++ (evs ++ evs'))%list)
        by (now rewrite Ht', Ht, app_assoc).
      destruct c.
      + split; [intros x Hx; apply Hsub; now right|].
        split; [assumption|]. eauto.
      + eauto.
      + eauto.
    - split; [intros x Hx; apply open_filter in Hx; tauto|].
      split; [now apply open_rows_distinct|].
      exists [SelectInvoices]. split; [reflexivity|].
      apply Forall2_same. now left. }
  destruct Q as (evs & Ht & HF). exists evs.
  now destruct (for_of _ _ _ _) as [[k|e|] w'].
Qed.

Lemma count_step_ids env now evs l l' :
  Forall2 (count_step env now evs) l l' -> map id l' = map id l.
Proof.
  induction 1 as [|a b l l' Hab _ IH]; cbn; [reflexivity|].
  f_equal; [|exact IH].
  destruct Hab as [->|(_ & -> & _)]; reflexivity.
Qed.

Lemma runs_keep (rs : list Run) : forall w,
  Forall capped (invoices w) -> NoDup (map id (invoices w)) ->
  Forall capped (invoices (runs rs w))
  /\ NoDup (map id (invoices (runs rs w))).
Proof.
  induction rs as [|r rs IH]; intros w Hcap Hnd; cbn; [auto|].
  apply IH.
  - now apply handler_capped.
  - destruct (handler_table (run_env r) (run_now r) (run_req r) w Hnd)
      as (evs & _ & HF).
    unfold run_once. now rewrite (count_step_ids _ _ _ _ _ HF).
Qed.

(** C2: starting from a table whose counts are at most 3 (and whose ids
    tell the rows apart), the counts are at most 3 after any number of runs
    made one after the other.  In each run a mail is sent only for an
    invoice whose count is below 3, and each row is left exactly as it was
    unless the provider accepted its mail, in which case its count is one
    higher; and the update that follows an accepted mail, once the store
    takes it, writes a count one higher to the invoice's rows. *)
Theorem reminder_count_stays_capped (rs : list Run) (r : Run) (w : World) :
  Forall capped (invoices w) ->
  NoDup (map id (invoices w)) ->
  let before := runs rs w in
  let after := run_once r before in
  Forall capped (invoices before)
  /\ Forall capped (invoices after)
  /\ (forall inv m,
        In (FetchResend inv m) (issued before after) -> count_of inv < 3)
  /\ Forall2 (count_step (run_env r) (run_now r) (issued before after))
             (invoices before) (invoices after)
  /\ (forall inv n w1 user a text,
        eligible (run_now r) inv = true ->
        recipient (profiles_single (run_env r) inv) = Some user ->
        amount inv = Some a ->
        resend_fetch (run_env r) inv (mail_for a inv user)
        = Fulfilled true text ->
        invoices_update_error (run_env r) inv = None ->
        invoices (snd (process_invoice (run_env r) (run_now r) inv n w1))
        = map (fun row =>
                 if (id row =? id inv)%string
                 then with_reminder (Date_toISOString (run_now r))
                                    (count_of inv + 1) row
                 else row) (invoices w1)).
Proof.
  intros Hcap Hnd before after.
  destruct (runs_keep rs w Hcap Hnd) as [Hcap' Hnd'].
  fold before in Hcap', Hnd'.
  split; [assumption|]. split; [now apply handler_capped|].
  split; [|split].
  3:{ intros inv n w1 user a text El Hr Ha Hf Hu.
      now rewrite (sent _ _ inv n w1 user a text El Hr Ha Hf Hu). }
  - intros inv m Hin.
    destruct (handler_requests (run_env r) (run_now r) (run_req r) before)
      as (evs & Ht & Hev).
    unfold after, run_once in Hin. rewrite (issued_app _ _ _ Ht) in Hin.
    destruct (Hev _ inv Hin eq_refl) as (_ & _ & El).
    now apply eligible_true in El as (s & _ & _ & _ & Hlt).
  - destruct (handler_table (run_env r) (run_now r) (run_req r) before Hnd')
      as (evs & Ht & HF).
    unfold after, run_once. now rewrite (issued_app _ _ _ Ht).
Qed.

(** ** Further properties of the handler *)

(** *** Recipients *)

Lemma recipient_none r : recipient r = None <-> unreachable r.
Proof.
  unfold recipient, unreachable.
  destruct (error r) as [e|]; [split; [left; discriminate|reflexivity]|].
  destruct (data r) as [u|]; [|split; [auto|reflexivity]].
  destruct (email u) as [s|] eqn:Hu; cbn.
  - destruct (String.eqb_spec s EmptyString) as [->|Hs]; cbn; split; intros H.
    + right. right. exists u. auto.
    + reflexivity.
    + discriminate.
    + destruct H as [H|[H|(u' & [= <-] & [H|H])]]; congruence.
  - split; [|reflexivity]. intros _. right. right. exists u. auto.
Qed.

(** X1: when the recipient lookup of an invoice fails, finds no profile, or
    finds one without an e-mail address, the invoice is skipped: the lookup
    is the only request made for it, the table and the count of sent
    reminders stay as they are, and the loop goes on with the next
    invoice. *)
Theorem unreachable_recipient_is_skipped env now inv n w rest :
  eligible now inv = true ->
  unreachable (profiles_single env inv) ->
  exists w',
    process_invoice env now inv n w = (Normal n, w')
    /\ invoices w' = invoices w
    /\ issued w w' = [SelectProfile inv]
    /\ for_of (process_invoice env now) (inv :: rest) n w
       = for_of (process_invoice env now) rest n w'.
Proof.
  intros El Hr. apply recipient_none in Hr.
  assert (E : process_invoice env now inv n w
              = (Normal n, log [SelectProfile inv] w))
    by (by_path env now inv n w).
  eexists. split; [exact E|]. split; [reflexivity|].
  split; [apply issued_log|now apply for_of_next].
Qed.

(** *** The edges of the selection *)

(** X2: the window closes 604800000 ms after the run's time, inclusive.
    For an invoice below the cap whose due date reads as [d], the loop body
    looks up the recipient when [d] is at most that far ahead, and returns
    without any request or change when [d] is later, be it by one
    millisecond. *)
Theorem window_is_seven_days_inclusive now inv s d :
  due_date inv = Some s ->
  Date_parse s = Some d ->
  count_of inv < 3 ->
  (d <= now + 604800000 ->
   forall env n w, exists c w' evs,
     process_invoice env now inv n w = (c, w')
     /\ issued w w' = SelectProfile inv :: evs)
  /\ (now + 604800000 < d ->
      forall env n w, process_invoice env now inv n w = (Normal n, w)).
Proof.
  intros Hs Hp Hc. split; intros Hd env n w.
  - apply eligible_is_looked_up.
    apply (due_is_eligible now inv s d Hs Hp); [|assumption].
    right. unfold WEEK. lia.
  - apply passed_over. destruct (eligible now inv) eqn:El; [|reflexivity].
    apply eligible_true in El as (s' & Hs' & _ & Hw & _).
    assert (s' = s) by congruence. subst s'. rewrite Hp in Hw.
    apply beyond_window_false in Hw. unfold WEEK in Hw. lia.
Qed.

(** X3: a due date that [Date] cannot read does not keep an invoice out.
    Both comparisons of the window test are false for an invalid date, so
    an invoice below the cap with such a [due_date] goes on to the
    recipient lookup, whatever the time of the run. *)
Theorem unreadable_due_date_is_not_excluded env now inv s n w :
  due_date inv = Some s ->
  s <> EmptyString ->
  Date_parse s = None ->
  count_of inv < 3 ->
  exists c w' evs,
    process_invoice env now inv n w = (c, w')
    /\ issued w w' = SelectProfile inv :: evs.
Proof.
  intros Hs Hne Hp Hc. apply eligible_is_looked_up.
  apply eligible_true. exists s. rewrite Hp. auto.
Qed.

(** X4: a count that is [null] (or 0) is read as 0.  The invoice is not
    held back by the cap, and once its mail is accepted and the store takes
    the update, every row with the invoice's id carries the count 1 and the
    time of the run, while all other rows are left as they were. *)
Theorem first_reminder_writes_one env now inv n w user a text :
  reminder_count inv = None \/ reminder_count inv = Some 0 ->
  eligible now inv = true ->
  recipient (profiles_single env inv) = Some user ->
  amount inv = Some a ->
  resend_fetch env inv (mail_for a inv user) = Fulfilled true text ->
  invoices_update_error env inv = None ->
  cap_reached inv = false
  /\ Forall2 (fun old new =>
               if (id old =? id inv)%string
               then reminder_count new = Some 1
                    /\ reminder_sent_at new = Some (Date_toISOString now)
                    /\ same_but_reminder old new
               else new = old)
       (invoices w)
       (invoices (snd (process_invoice env now inv n w))).
Proof.
  intros Hnull El Hr Ha Hf Hu.
  assert (Hz : count_of inv = 0)
    by (unfold count_of; destruct Hnull as [-> | ->]; reflexivity).
  split; [apply cap_reached_false; lia|].
  rewrite (sent env now inv n w user a text El Hr Ha Hf Hu). cbn [snd invoices].
  unfold reminded. rewrite Hz.
  eapply Forall2_map_r_In;
    [apply (Forall2_same (fun a b : Invoice => b = a)); reflexivity|].
  intros old new _ ->.
  destruct (id old =? id inv)%string; [|reflexivity].
  repeat split.
Qed.

(** *** The provider call *)

(** X5: [sendReminderEmail] posts one mail, from
    [stockflow <noreply@stockflow.app>] with the recipient, subject and
    body it was given, and leaves the table alone.  It returns when the
    provider answers with a 2xx status; it throws [Resend error: ] followed
    by the response text on any other status, and the rejection itself when
    the call is rejected. *)
Theorem sendReminderEmail_outcomes env inv to_ subject_ html_ w :
  let m := {| from := "stockflow <noreply@stockflow.app>"; to := to_;
              subject := subject_; html := html_ |} in
  let out := sendReminderEmail env inv to_ subject_ html_ w in
  snd out = log [FetchResend inv m] w
  /\ (fst out = Normal tt <-> exists text, resend_fetch env inv m = Fulfilled true text)
  /\ (forall text, resend_fetch env inv m = Fulfilled false text ->
                   fst out = Throw (Err ("Resend error: " ++ text)))
  /\ (forall e, resend_fetch env inv m = Rejected e -> fst out = Throw e).
Proof.
  intros m out. subst out.
  unfold sendReminderEmail, bind, emit.
  change (reminder_mail to_ subject_ html_) with m.
  destruct (resend_fetch env inv m) as [[|] text|e|]; cbn;
    (split; [reflexivity|]); (split; [split|split]);
    try congruence; eauto; intros [t H]; discriminate.
Qed.

(** *** Requests and runs *)

(** X6: only the method [OPTIONS] keeps the batch from running.  A request
    with that method is answered [ok] without a single request being made;
    a request with any other method starts with the bulk read of the
    invoices. *)
Theorem only_preflight_skips_the_batch env now req w :
  (method req = "OPTIONS" ->
   handler env now req w
   = (Normal {| resp_body := BodyText "ok"; resp_headers := corsHeaders;
                resp_status := 200 |}, w)
   /\ issued w (snd (handler env now req w)) = [])
  /\ (method req <> "OPTIONS" ->
      exists evs,
        issued w (snd (handler env now req w)) = SelectInvoices :: evs).
Proof.
  split; intros Hm.
  - rewrite (handler_preflight env now req w Hm). split; [reflexivity|].
    unfold issued. cbn [snd]. apply skipn_all.
  - destruct (invoices_select_error env) as [err|] eqn:He.
    { rewrite (handler_read_failed env now req w err Hm He).
      exists []. apply issued_log. }
    rewrite (handler_batch env now req w Hm He).
    pose proof (for_of_rule env now
      (fun _ _ w1 => exists evs,
           trace w1 = (trace w ++ SelectInvoices :: evs)%list)
      (fun _ w1 => exists evs,
           trace w1 = (trace w ++ SelectInvoices :: evs)%list)) as R.
    cbv beta in R.
    assert (Q : exists evs,
               trace (snd (for_of (process_invoice env now)
                  (filter (fun r => (status r =? "open")%string) (invoices w))
                  0 (log [SelectInvoices] w)))
               = (trace w ++ SelectInvoices :: evs)%list).
    { apply R; clear R.
      - auto.
      - intros inv rest n w1 c w2 (evs & Ht) HP.
        apply Processed_requests in HP as (evs' & Ht' & _).
        assert (exists evs0,
                   trace w2 = (trace w ++ SelectInvoices :: evs0)%list).
        { exists (evs ++ evs')%list. rewrite Ht', Ht.
          now rewrite <- app_assoc. }
        now destruct c.
      - exists []. reflexivity. }
    destruct Q as (evs & Ht). exists evs.
    apply issued_app. now destruct (for_of _ _ _ _) as [[k|e|] w'].
Qed.

(** X7: with no open invoice in the table, a run answers
    [{ success: true, remindersSent: 0 }] after the bulk read alone,
    whatever the profile store and the provider would have answered. *)
Theorem nothing_open_nothing_sent env now req w :
  method req <> "OPTIONS" ->
  invoices_select_error env = None ->
  (forall inv, In inv (invoices w) -> status inv <> "open") ->
  handler env now req w
  = (Normal (success_response 0), log [SelectInvoices] w).
Proof.
  intros Hm He Hnone. rewrite (handler_batch env now req w Hm He).
  assert (E : filter (fun r => (status r =? "open")%string) (invoices w) = []).
  { destruct (filter _ (invoices w)) as [|x l] eqn:Hf; [reflexivity|].
    assert (Hx : In x (filter (fun r => (status r =? "open")%string)
                          (invoices w))) by (rewrite Hf; now left).
    apply open_filter in Hx as [Hx Hs]. now destruct (Hnone x Hx). }
  now rewrite E.
Qed.

(** X8: whatever happens in a run, an answer carries the CORS headers, and
    its status is 200 or 500; a 500 answer has the body
    [{ error: message }] and is given only by a run that had started the
    batch. *)
Theorem every_answer_has_cors_headers env now req w resp :
  fst (handler env now req w) = Normal resp ->
  incl corsHeaders (resp_headers resp)
  /\ (resp_status resp = 200
      \/ (resp_status resp = 500
          /\ method req <> "OPTIONS"
          /\ exists msg, resp_body resp = BodyJSON [("error", JString msg)])).
Proof.
  assert (Hj : incl corsHeaders json_headers)
    by (unfold json_headers; apply incl_appl, incl_refl).
  destruct (String.eqb_spec (method req) "OPTIONS") as [Hm|Hm].
  { rewrite (handler_preflight env now req w Hm). intros [= <-]. cbn.
    split; [apply incl_refl|now left]. }
  destruct (invoices_select_error env) as [err|] eqn:He.
  { rewrite (handler_read_failed env now req w err Hm He). intros [= <-].
    split; [exact Hj|]. right. cbn. eauto. }
  rewrite (handler_batch env now req w Hm He).
  destruct (for_of _ _ _ _) as [[k|e|] w']; cbn [fst]; intros [= <-].
  - split; [exact Hj|now left].
  - split; [exact Hj|]. right. cbn. eauto.
Qed.

(** *** What runs do to the table *)

Lemma same_but_reminder_refl r : same_but_reminder r r.
Proof. repeat split. Qed.

Lemma same_but_reminder_trans r1 r2 r3 :
  same_but_reminder r1 r2 -> same_but_reminder r2 r3 ->
  same_but_reminder r1 r3.
Proof.
  unfold same_but_reminder. intuition congruence.
Qed.

Lemma Forall2_chain {A} (R1 R2 R3 : A -> A -> Prop) l1 l2 l3 :
  (forall a b c, R1 a b -> R2 b c -> R3 a c) ->
  Forall2 R1 l1 l2 -> Forall2 R2 l2 l3 -> Forall2 R3 l1 l3.
Proof.
  intros HR H12. revert l3.
  induction H12 as [|a b l1 l2 Hab _ IH]; intros l3 H23;
    inversion H23; subst; constructor; eauto.
Qed.

Lemma handler_columns env now req w :
  Forall2 same_but_reminder
    (invoices w) (invoices (snd (handler env now req w))).
Proof.
  assert (Hsame : Forall2 same_but_reminder (invoices w) (invoices w))
    by (apply Forall2_same, same_but_reminder_refl).
  destruct (String.eqb_spec (method req) "OPTIONS") as [Hm|Hm].
  { now rewrite (handler_preflight env now req w Hm). }
  destruct (invoices_select_error env) as [err|] eqn:He.
  { now rewrite (handler_read_failed env now req w err Hm He). }
  rewrite (handler_batch env now req w Hm He).
  set (open := filter _ (invoices w)).
  pose proof (for_of_rule env now
    (fun _ _ w1 => Forall2 same_but_reminder (invoices w) (invoices w1))
    (fun _ w1 => Forall2 same_but_reminder (invoices w) (invoices w1))) as R.
  cbv beta in R.
  assert (Q : Forall2 same_but_reminder (invoices w)
                (invoices (snd (for_of (process_invoice env now) open 0
                                  (log [SelectInvoices] w))))).
  { apply R; clear R; [auto| |exact Hsame].
    intros inv rest n w1 c w2 HF HP.
    apply Processed_requests in HP as (evs & _ & _ & _ & Ht).
    assert (Forall2 same_but_reminder (invoices w) (invoices w2)).
    { destruct Ht as [->|(-> & _)]; [assumption|].
      unfold reminded. eapply Forall2_map_r_In; [exact HF|].
      intros a b _ Hab. destruct (id b =? id inv)%string; [|assumption].
      eapply same_but_reminder_trans; [exact Hab|]. repeat split. }
    now destruct c. }
  now destruct (for_of _ _ _ _) as [[k|e|] w'].
Qed.

(** X9: runs only ever write [reminder_sent_at] and [reminder_count].
    After any number of runs the table has the same rows in the same
    order, each with the id, owner, amount, due date, payment reference and
    status it had. *)
Theorem runs_write_only_the_reminder_columns (rs : list Run) (w : World) :
  Forall2 same_but_reminder (invoices w) (invoices (runs rs w)).
Proof.
  revert w. induction rs as [|r rs IH]; intros w; cbn.
  - apply Forall2_same, same_but_reminder_refl.
  - eapply Forall2_chain;
      [exact same_but_reminder_trans
      |apply (handler_columns (run_env r) (run_now r) (run_req r))
      |apply IH].
Qed.

Lemma count_step_bounds env now evs old new :
  count_step env now evs old new ->
  count_of old <= count_of new <= count_of old + 1
  /\ (3 <= count_of old -> new = old).
Proof.
  intros [->|(Hlt & _ & Hk & _)]; (split; [lia|]); intros; [reflexivity|lia].
Qed.

Lemma runs_table (rs : list Run) : forall w,
  NoDup (map id (invoices w)) ->
  Forall2 (fun old new =>
             count_of old <= count_of new
                          <= count_of old + Z.of_nat (List.length rs)
             /\ (3 <= count_of old -> new = old))
    (invoices w) (invoices (runs rs w)).
Proof.
  induction rs as [|r rs IH]; intros w Hnd.
  - apply Forall2_same. intros a. cbn. split; [lia|auto].
  - destruct (handler_table (run_env r) (run_now r) (run_req r) w Hnd)
      as (evs & _ & HF).
    assert (Hnd' : NoDup (map id (invoices (run_once r w))))
      by (unfold run_once; now rewrite (count_step_ids _ _ _ _ _ HF)).
    cbn [runs fold_left]. fold (runs rs (run_once r w)).
    eapply Forall2_chain; [|exact HF|exact (IH _ Hnd')].
    intros a b c Hab [Hbc Hstay].
    apply count_step_bounds in Hab as [Hab Hfix].
    cbn [List.length]. split; [lia|].
    intros H3. specialize (Hfix H3). subst b. auto.
Qed.

(** X10: reminder counts only grow, and by at most one per run.  In a
    table whose ids tell the rows apart, after [k] runs each row's count
    lies between what it was and [k] more. *)
Theorem counts_grow_by_at_most_one_per_run (rs : list Run) (w : World) :
  NoDup (map id (invoices w)) ->
  Forall2 (fun old new =>
             count_of old <= count_of new
                          <= count_of old + Z.of_nat (List.length rs))
    (invoices w) (invoices (runs rs w)).
Proof.
  intros Hnd. generalize (runs_table rs w Hnd). apply Forall2_impl.
  now intros a b [H _].
Qed.

(** X11: the cap is final.  In a table whose ids tell the rows apart, a
    row whose count has reached 3 is never written again: it is the same
    row after any number of runs. *)
Theorem capped_rows_are_never_written (rs : list Run) (w : World) :
  NoDup (map id (invoices w)) ->
  Forall2 (fun old new => 3 <= count_of old -> new = old)
    (invoices w) (invoices (runs rs w)).
Proof.
  intros Hnd. generalize (runs_table rs w Hnd). apply Forall2_impl.
  now intros a b [_ H].
Qed.

(** A run whose store rejects every update leaves the table as it was. *)
Lemma handler_rejected_updates env now req w :
  (forall inv, invoices_update_error env inv <> None) ->
  invoices (snd (handler env now req w)) = invoices w.
Proof.
  intros Hrej.
  destruct (String.eqb_spec (method req) "OPTIONS") as [Hm|Hm].
  { now rewrite (handler_preflight env now req w Hm). }
  destruct (invoices_select_error env) as [err|] eqn:He.
  { now rewrite (handler_read_failed env now req w err Hm He). }
  rewrite (handler_batch env now req w Hm He).
  set (open := filter _ (invoices w)).
  pose proof (for_of_rule env now
    (fun _ _ w1 => invoices w1 = invoices w)
    (fun _ w1 => invoices w1 = invoices w)) as R.
  cbv beta in R.
  assert (Q : invoices (snd (for_of (process_invoice env now) open 0
                               (log [SelectInvoices] w))) = invoices w).
  { apply R; clear R; [auto| |reflexivity].
    intros inv rest n w1 c w2 HI HP.
    assert (invoices w2 = invoices w).
    { inversion HP; subst; try assumption. now destruct (Hrej inv). }
    now destruct c. }
  now destruct (for_of _ _ _ _) as [[k|e|] w'].
Qed.

(** X12: the cap counts updates, not mails.  While the store rejects the
    updates, no number of runs changes the table, so an invoice below the
    cap stays below it however many of its mails were accepted. *)
Theorem rejected_updates_never_reach_the_cap (rs : list Run) (w : World) :
  (forall r inv, In r rs -> invoices_update_error (run_env r) inv <> None) ->
  invoices (runs rs w) = invoices w.
Proof.
  intros Hrej.
  revert w. induction rs as [|r rs IH]; intros w; [reflexivity|].
  cbn [runs fold_left]. fold (runs rs (run_once r w)).
  rewrite IH by (intros; apply Hrej; now right).
  apply handler_rejected_updates. intros inv. apply Hrej. now left.
Qed.

(** *** Counting requests *)

Lemma count_events_app p evs1 evs2 :
  count_events p (evs1 ++ evs2)
  = (count_events p evs1 + count_events p evs2)%nat.
Proof. unfold count_events. now rewrite filter_app, length_app. Qed.

(** One pass through the loop body makes at most one lookup, one mail and
    one update, in that order of need, and raises the count of sent
    reminders by the number of updates it issued. *)
Lemma Processed_counts env now inv n w c w' :
  Processed env now inv n w c w' ->
  exists evs,
    trace w' = (trace w ++ evs)%list
    /\ (count_events is_update evs <= count_events is_mail evs)%nat
    /\ (count_events is_mail evs <= count_events is_lookup evs)%nat
    /\ (count_events is_lookup evs <= 1)%nat
    /\ match c with
       | Normal n' => n' = n + Z.of_nat (count_events is_update evs)
       | _ => True
       end.
Proof.
  inversion 1; subst.
  { exists []. cbn. rewrite app_nil_r. repeat split; try lia. }
  all: eexists; (split; [reflexivity|]); cbn; repeat split; lia.
Qed.

(** X13: in every run, each update follows a mail and each mail a lookup,
    and there is at most one lookup per open invoice: the numbers of
    updates, mails and lookups issued are in that order, and the lookups
    are no more than the open invoices.  A run that answers with status 200
    reports as [remindersSent] the number of updates it issued. *)
Theorem requests_are_counted env now req w :
  let evs := issued w (snd (handler env now req w)) in
  (count_events is_update evs <= count_events is_mail evs)%nat
  /\ (count_events is_mail evs <= count_events is_lookup evs)%nat
  /\ (count_events is_lookup evs
      <= List.length (filter (fun r => (status r =? "open")%string)
                        (invoices w)))%nat
  /\ (forall resp,
        method req <> "OPTIONS" ->
        fst (handler env now req w) = Normal resp ->
        resp_status resp = 200 ->
        resp_body resp
        = BodyJSON [("success", JBool true);
                    ("remindersSent",
                     JNumber (Z.of_nat (count_events is_update evs)))]).
Proof.
  intros evs. subst evs.
  destruct (String.eqb_spec (method req) "OPTIONS") as [Hm|Hm].
  { rewrite (handler_preflight env now req w Hm). unfold issued. cbn [snd].
    rewrite skipn_all. cbn. repeat split; try lia. intros; contradiction. }
  destruct (invoices_select_error env) as [err|] eqn:He.
  { rewrite (handler_read_failed env now req w err Hm He). cbn [fst snd].
    rewrite issued_log. cbn. repeat split; try lia.
    intros resp _ [= <-]. discriminate. }
  rewrite (handler_batch env now req w Hm He).
  set (open := filter _ (invoices w)).
  set (inv_ := fun (rest : list Invoice) (n : Z) (evs : list Event) =>
         n = Z.of_nat (count_events is_update evs)
         /\ (count_events is_update evs <= count_events is_mail evs)%nat
         /\ (count_events is_mail evs <= count_events is_lookup evs)%nat
         /\ (count_events is_lookup evs + List.length rest
             <= List.length open)%nat).
  pose proof (for_of_rule env now
    (fun rest n w1 =>
       exists evs, trace w1 = (trace w ++ evs)%list /\ inv_ rest n evs)
    (fun c w1 =>
       exists evs,
         trace w1 = (trace w ++ evs)%list
         /\ exists k, inv_ [] k evs
                      /\ match c with Normal n => n = k | _ => True end))
    as R.
  cbv beta in R.
  assert (Q : exists evs,
             trace (snd (for_of (process_invoice env now) open 0
                           (log [SelectInvoices] w)))
             = (trace w ++ evs)%list
             /\ exists k, inv_ [] k evs
                  /\ match fst (for_of (process_invoice env now) open 0
                                  (log [SelectInvoices] w)) with
                     | Normal n => n = k
                     | _ => True
                     end).
  { apply R; clear R.
    - intros n w1 (evs & Ht & Hi). exists evs. split; [exact Ht|].
      exists n. auto.
    - intros inv rest n w1 c w2 (evs & Ht & Hn & Hum & Hml & Hlo) HP.
      apply Processed_counts in HP as (evs' & Ht' & Hum' & Hml' & Hl1 & Hc).
      assert (Ht2 : trace w2 = (trace w ++ (evs ++ evs'))%list)
        by (now rewrite Ht', Ht, app_assoc).
      assert (Hi : inv_ rest (n + Z.of_nat (count_events is_update evs'))
                     (evs ++ evs')%list).
      { unfold inv_. rewrite !count_events_app. cbn [List.length] in Hlo.
        repeat split; lia. }
      assert (Hi0 : inv_ [] (n + Z.of_nat (count_events is_update evs'))
                      (evs ++ evs')%list).
      { destruct Hi as (H1 & H2 & H3 & H4). unfold inv_.
        cbn [List.length]. repeat split; lia. }
      destruct c as [n'| |].
      + subst n'. eauto.
      + eauto.
      + eauto.
    - exists [SelectInvoices]. split; [reflexivity|].
      unfold inv_. cbn. repeat split; lia. }
  destruct Q as (evs & Ht & k & (Hk & Hum & Hml & Hlo) & Hc).
  assert (Hiss : issued w (snd (for_of (process_invoice env now) open 0
                                  (log [SelectInvoices] w))) = evs)
    by (now apply issued_app).
  destruct (for_of _ _ _ _) as [[n|e|] w']; cbn [fst snd] in *;
    rewrite Hiss; cbn [List.length] in Hlo;
    (split; [lia|]); (split; [lia|]); (split; [lia|]);
    intros resp _ [= <-]; try discriminate.
  intros _. cbn. now rewrite Hc, Hk.
Qed.

(** *** Mails *)

Lemma recipient_some r user :
  recipient r = Some user ->
  error r = None /\ data r = Some user
  /\ exists addr, email user = Some addr /\ addr <> EmptyString.
Proof.
  unfold recipient. destruct (error r); [discriminate|].
  destruct (data r) as [u|]; [|discriminate].
  destruct (truthy_string (email u)) eqn:Ht; [|discriminate].
  intros [= <-]. apply truthy_string_true in Ht. auto.
Qed.

(** X14: no mail goes out without an address.  Every mail a run posts for
    an invoice is addressed to the non-empty e-mail address of the profile
    that the (successful) lookup for that invoice returned; it is sent from
    [stockflow <noreply@stockflow.app>] with the fixed subject, and its
    body is the template filled in with that invoice and that profile. *)
Theorem every_mail_has_a_recipient env now req w inv m :
  In (FetchResend inv m) (issued w (snd (handler env now req w))) ->
  exists user a addr,
    error (profiles_single env inv) = None
    /\ data (profiles_single env inv) = Some user
    /\ email user = Some addr /\ addr <> EmptyString
    /\ amount inv = Some a
    /\ m = {| from := "stockflow <noreply@stockflow.app>";
              to := Some addr;
              subject := "Herinnering: openstaande factuur stockflow";
              html := html_body a inv user |}.
Proof.
  set (P := fun (i : Invoice) (mm : Mail) =>
         exists user a,
           recipient (profiles_single env i) = Some user
           /\ amount i = Some a /\ mm = mail_for a i user).
  assert (Hall : exists evs,
             trace (snd (handler env now req w)) = (trace w ++ evs)%list
             /\ forall i mm, In (FetchResend i mm) evs -> P i mm).
  { destruct (String.eqb_spec (method req) "OPTIONS") as [Hm|Hm].
    { rewrite (handler_preflight env now req w Hm). exists [].
      split; [cbn; now rewrite app_nil_r|intros i mm []]. }
    destruct (invoices_select_error env) as [err|] eqn:He.
    { rewrite (handler_read_failed env now req w err Hm He).
      exists [SelectInvoices]. split; [reflexivity|].
      intros i mm [H|[]]; discriminate. }
    rewrite (handler_batch env now req w Hm He).
    pose proof (for_of_rule env now
      (fun _ _ w1 => exists evs,
           trace w1 = (trace w ++ evs)%list
           /\ forall i mm, In (FetchResend i mm) evs -> P i mm)
      (fun _ w1 => exists evs,
           trace w1 = (trace w ++ evs)%list
           /\ forall i mm, In (FetchResend i mm) evs -> P i mm)) as R.
    cbv beta in R.
    assert (Q : exists evs,
               trace (snd (for_of (process_invoice env now)
                  (filter (fun r => (status r =? "open")%string) (invoices w))
                  0 (log [SelectInvoices] w)))
               = (trace w ++ evs)%list
               /\ forall i mm, In (FetchResend i mm) evs -> P i mm).
    { apply R; clear R.
      - auto.
      - intros i0 rest n w1 c w2 (evs & Ht & Hev) HP.
        assert (Hnew : exists evs',
                   trace w2 = (trace w1 ++ evs')%list
                   /\ forall i mm, In (FetchResend i mm) evs' -> P i mm).
        { inversion HP; subst.
          { exists []. split; [cbn; now rewrite app_nil_r|intros i mm []]. }
          all: eexists; (split; [reflexivity|]); intros i mm Hin;
            cbn [In] in Hin;
            repeat (destruct Hin as [Hin|Hin]; [try discriminate|]);
            try contradiction;
            injection Hin as <- <-; exists user, a; auto. }
        destruct Hnew as (evs' & Ht' & Hev').
        assert (exists evs0,
                   trace w2 = (trace w ++ evs0)%list
                   /\ forall i mm, In (FetchResend i mm) evs0 -> P i mm).
        { exists (evs ++ evs')%list. split.
          - now rewrite Ht', Ht, app_assoc.
          - intros i mm Hin. apply in_app_or in Hin as [Hin|Hin]; eauto. }
        now destruct c.
      - exists [SelectInvoices]. split; [reflexivity|].
        intros i mm [H|[]]; discriminate. }
    destruct Q as (evs & Ht & Hev). exists evs.
    split; [|exact Hev]. now destruct (for_of _ _ _ _) as [[k|e|] w']. }
  destruct Hall as (evs & Ht & Hev).
  rewrite (issued_app _ _ _ Ht). intros Hin.
  destruct (Hev inv m Hin) as (user & a & Hr & Ha & ->).
  apply recipient_some in Hr as (He & Hd & addr & Hu & Hne).
  exists user, a, addr. repeat split; try assumption.
  unfold mail_for, reminder_mail. now rewrite Hu.
Qed.

(** *** Runs that stop early *)

(** X15: once the bulk read has succeeded, the only way a run answers with
    status 500 is the missing amount of an open invoice that passed the
    guards and has a recipient; the answer then carries the message of
    that error.  A failing lookup, a refused mail or a rejected update
    never makes a run answer 500. *)
Theorem error_after_read_is_a_missing_amount env now req w resp :
  method req <> "OPTIONS" ->
  invoices_select_error env = None ->
  fst (handler env now req w) = Normal resp ->
  resp_status resp = 500 ->
  resp = error_response "Cannot read properties of null (reading 'toFixed')"
  /\ exists inv,
       In inv (invoices w) /\ status inv = "open"
       /\ eligible now inv = true
       /\ recipient (profiles_single env inv) <> None
       /\ amount inv = None.
Proof.
  intros Hm He Hr H500. rewrite (handler_batch env now req w Hm He) in Hr.
  set (open := filter _ (invoices w)) in *.
  set (Q := fun (c : Completion Z) =>
         match c with
         | Throw e =>
             e = Err "Cannot read properties of null (reading 'toFixed')"
             /\ exists inv,
                  In inv open /\ eligible now inv = true
                  /\ recipient (profiles_single env inv) <> None
                  /\ amount inv = None
         | _ => True
         end).
  pose proof (for_of_rule env now
    (fun rest _ _ => forall x, In x rest -> In x open)
    (fun c _ => Q c)) as R.
  cbv beta in R.
  assert (HQ : Q (fst (for_of (process_invoice env now) open 0
                         (log [SelectInvoices] w)))).
  { apply R; clear R.
    - intros; exact I.
    - intros inv rest n w1 c w2 Hsub HP.
      inversion HP; subst; cbn; auto;
        try (intros x Hx; apply Hsub; now right).
      split; [reflexivity|]. exists inv.
      split; [apply Hsub; now left|]. split; [assumption|].
      split; [congruence|assumption].
    - auto. }
  destruct (for_of _ _ _ _) as [[k|e|] w']; cbn [fst] in *;
    try discriminate; injection Hr as <-; [discriminate|].
  destruct HQ as (-> & inv & Hin & El & Hrec & Ha).
  split; [reflexivity|]. exists inv.
  apply open_filter in Hin as [Hin Hs]. auto.
Qed.

(** X16: a run that stops at an invoice (its mail cannot be composed, or
    the provider never answers) undoes nothing and goes no further.  The
    table is as the invoices before it left it, every request made from
    then on is for the invoice at which the run stopped, and the run does
    not answer with a success. *)
Theorem a_stopped_run_keeps_what_was_done
  env now req w pre inv post n1 w1 :
  method req <> "OPTIONS" ->
  invoices_select_error env = None ->
  filter (fun r => (status r =? "open")%string) (invoices w)
  = (pre ++ inv :: post)%list ->
  for_of (process_invoice env now) pre 0 (log [SelectInvoices] w)
  = (Normal n1, w1) ->
  (forall n2, fst (process_invoice env now inv n1 w1) <> Normal n2) ->
  let out := handler env now req w in
  invoices (snd out) = invoices w1
  /\ (forall e, In e (issued w1 (snd out)) -> about e = Some inv)
  /\ (forall n, fst out <> Normal (success_response n)).
Proof.
  intros Hm He Hopen Hpre Hstop out. subst out.
  rewrite (handler_batch env now req w Hm He), Hopen, for_of_app, Hpre.
  cbn [for_of]. unfold bind.
  pose proof (process_invoice_Processed env now inv n1 w1) as HP.
  destruct (process_invoice env now inv n1 w1) as [[n2|e|] w2];
    cbn [fst snd] in *; [now destruct (Hstop n2)| |].
  - inversion HP; subst. cbn [fst snd]. split; [reflexivity|].
    split; [|discriminate].
    rewrite issued_log. intros ev [<-|[]]. reflexivity.
  - inversion HP; subst. cbn [fst snd]. split; [reflexivity|].
    split; [|discriminate].
    rewrite issued_log. intros ev [<-|[<-|[]]]; reflexivity.
Qed.

End Properties.

(** ** Sample runs *)

#[local] Existing Instance IsoDate.date.

(** C1: a run over an invoice without an amount, followed by an invoice
    that is due.  Composing the first mail throws outside the loop's
    [try], the run answers with status 500, and the second invoice is never
    looked at. *)
Theorem missing_amount_aborts_the_run :
  handler Scenario.all_well Scenario.now Scenario.POST
    (Scenario.table [Scenario.no_amount; Scenario.due_soon])
  = (Normal (error_response
               "Cannot read properties of null (reading 'toFixed')"),
     {| invoices := [Scenario.no_amount; Scenario.due_soon];
        trace := [SelectInvoices; SelectProfile Scenario.no_amount] |}).
Proof. vm_compute. reflexivity. Qed.

(** The provider never answers the first mail: the run does not come to an
    end, and the invoice after it is never looked at. *)
Lemma silent_provider_blocks_the_run :
  handler Scenario.provider_silent Scenario.now Scenario.POST
    (Scenario.table [Scenario.due_soon; Scenario.overdue])
  = (Pending,
     {| invoices := [Scenario.due_soon; Scenario.overdue];
        trace := [SelectInvoices; SelectProfile Scenario.due_soon;
                  FetchResend Scenario.due_soon Scenario.reminder] |}).
Proof. vm_compute. reflexivity. Qed.

(** The store rejects the update after an accepted mail: the run writes
    nothing to the console, leaves the row as it was, and answers exactly
    as the run in which the update went through. *)
Lemma rejected_update_is_not_logged :
  let out := handler Scenario.update_rejected Scenario.now Scenario.POST
               (Scenario.table [Scenario.due_soon]) in
  resend_fetch Scenario.update_rejected Scenario.due_soon Scenario.reminder
  = Fulfilled true "{}"
  /\ invoices_update_error Scenario.update_rejected Scenario.due_soon
     = Some (Err "permission denied")
  /\ out = (Normal (success_response 1),
            {| invoices := [Scenario.due_soon];
               trace := [SelectInvoices; SelectProfile Scenario.due_soon;
                         FetchResend Scenario.due_soon Scenario.reminder;
                         UpdateInvoices Scenario.due_soon
                           "2024-01-15T08:00:00.000Z" 1] |})
  /\ fst out = fst (handler Scenario.all_well Scenario.now Scenario.POST
                      (Scenario.table [Scenario.due_soon])).
Proof. vm_compute. repeat split. Qed.

(** The bulk read succeeds, yet the run does not answer with a success
    result: once because composing a mail throws, once because the provider
    never answers. *)
Lemma successful_read_without_success_result :
  (invoices_select_error Scenario.all_well = None
   /\ fst (handler Scenario.all_well Scenario.now Scenario.POST
             (Scenario.table [Scenario.no_amount; Scenario.due_soon]))
      = Normal {| resp_body :=
                    BodyJSON [("error",
                      JString "Cannot read properties of null (reading 'toFixed')")];
                  resp_headers := json_headers;
                  resp_status := 500 |})
  /\ (invoices_select_error Scenario.provider_silent = None
      /\ fst (handler Scenario.provider_silent Scenario.now Scenario.POST
                (Scenario.table [Scenario.due_soon]))
         = Pending).
Proof. vm_compute. repeat split. Qed.

Lemma absent_due_date_is_skipped_witness :
  let w := Scenario.table [Scenario.no_due_date; Scenario.due_soon] in
  (due_date Scenario.no_due_date = None
   \/ due_date Scenario.no_due_date = Some EmptyString)
  /\ process_invoice Scenario.all_well Scenario.now Scenario.no_due_date 0 w
     = (Normal 0, w)
  /\ for_of (process_invoice Scenario.all_well Scenario.now)
       [Scenario.no_due_date; Scenario.due_soon] 0 w
     = for_of (process_invoice Scenario.all_well Scenario.now)
         [Scenario.due_soon] 0 w.
Proof.
  intros w. split; [left; reflexivity|].
  apply (absent_due_date_is_skipped Scenario.all_well Scenario.now
           Scenario.no_due_date 0 w [Scenario.due_soon]).
  left; reflexivity.
Defined.

Lemma bulk_read_failure_is_fatal_witness :
  let w := Scenario.table [Scenario.due_soon; Scenario.overdue] in
  let out := handler Scenario.store_down Scenario.now Scenario.POST w in
  fst out = Normal (error_response "connection refused")
  /\ resp_status (error_response "connection refused") = 500
  /\ issued w (snd out) = [SelectInvoices]
  /\ invoices (snd out) = invoices w.
Proof.
  intros w.
  apply (bulk_read_failure_is_fatal Scenario.store_down Scenario.now
           Scenario.POST w (Err "connection refused")).
  - discriminate.
  - reflexivity.
Defined.

Lemma failed_dispatch_changes_nothing_witness :
  let w := Scenario.table [Scenario.due_soon; Scenario.overdue] in
  let err := Err "Resend error: rate limit exceeded" in
  exists w',
    process_invoice Scenario.provider_refuses Scenario.now
      Scenario.due_soon 0 w = (Normal 0, w')
    /\ invoices w' = invoices w
    /\ issued w w' = [SelectProfile Scenario.due_soon;
                      FetchResend Scenario.due_soon Scenario.reminder;
                      ConsoleError "Reminder e-mail error:" err]
    /\ dispatch_ok Scenario.provider_refuses Scenario.now Scenario.due_soon
       = false
    /\ for_of (process_invoice Scenario.provider_refuses Scenario.now)
         [Scenario.due_soon; Scenario.overdue] 0 w
       = for_of (process_invoice Scenario.provider_refuses Scenario.now)
           [Scenario.overdue] 0 w'.
Proof.
  intros w err.
  apply (failed_dispatch_changes_nothing Scenario.provider_refuses
           Scenario.now Scenario.due_soon 0 w Scenario.customer 12500 err
           [Scenario.overdue]); reflexivity.
Defined.

Lemma dispatch_waits_for_the_provider_witness :
  let w := Scenario.table [Scenario.due_soon; Scenario.overdue] in
  let env := Scenario.provider_silent in
  resend_fetch env Scenario.due_soon Scenario.reminder = NeverSettles
  /\ fst (process_invoice env Scenario.now Scenario.due_soon 0 w) = Pending
  /\ fst (for_of (process_invoice env Scenario.now)
            [Scenario.due_soon; Scenario.overdue] 0 w) = Pending.
Proof.
  intros w env. split; [reflexivity|].
  apply (dispatch_waits_for_the_provider env Scenario.now Scenario.due_soon
           0 w Scenario.customer 12500 [Scenario.overdue]); reflexivity.
Defined.

Lemma rejected_update_goes_unnoticed_witness :
  let w := Scenario.table [Scenario.due_soon] in
  exists w',
    process_invoice Scenario.update_rejected Scenario.now
      Scenario.due_soon 0 w = (Normal (0 + 1), w')
    /\ invoices w' = invoices w
    /\ issued w w'
       = [SelectProfile Scenario.due_soon;
          FetchResend Scenario.due_soon Scenario.reminder;
          UpdateInvoices Scenario.due_soon
            (Date_toISOString Scenario.now)
            (count_of Scenario.due_soon + 1)]
    /\ (forall label err, ~ In (ConsoleError label err) (issued w w')).
Proof.
  intros w.
  apply (rejected_update_goes_unnoticed Scenario.update_rejected
           Scenario.now Scenario.due_soon 0 w Scenario.customer 12500
           "{}" (Err "permission denied")); reflexivity.
Defined.

Lemma completed_run_reports_sent_count_witness :
  let w := Scenario.table
             [Scenario.due_soon; Scenario.due_later; Scenario.at_cap;
              Scenario.no_due_date; Scenario.overdue; Scenario.paid] in
  fst (handler Scenario.all_well Scenario.now Scenario.POST w)
  = Normal {| resp_body := BodyJSON [("success", JBool true);
                                     ("remindersSent", JNumber 2)];
              resp_headers := json_headers;
              resp_status := 200 |}.
Proof.
  intros w.
  assert (Hc : forall inv, In inv (invoices w) -> status inv = "open" ->
                           completes Scenario.all_well Scenario.now inv).
  { intros inv Hin _ user _ _. cbn in Hin.
    repeat (destruct Hin as [<-|Hin];
            [eexists; split; [reflexivity|discriminate]|]).
    contradiction. }
  exact (completed_run_reports_sent_count Scenario.all_well Scenario.now
           Scenario.POST w ltac:(discriminate) eq_refl Hc).
Defined.

Lemma requests_only_for_selected_invoices_witness :
  let w := Scenario.table
             [Scenario.paid; Scenario.due_later; Scenario.due_soon] in
  let inv := Scenario.due_soon in
  In (FetchResend inv Scenario.reminder)
     (issued w (snd (handler Scenario.all_well Scenario.now Scenario.POST w)))
  /\ In inv (invoices w)
  /\ status inv = "open"
  /\ count_of inv < 3
  /\ exists s, due_date inv = Some s
               /\ forall d, Date_parse s = Some d ->
                            d <= Scenario.now \/ d - Scenario.now <= WEEK.
Proof.
  intros w inv.
  assert (Hin : In (FetchResend inv Scenario.reminder)
                  (issued w (snd (handler Scenario.all_well Scenario.now
                                    Scenario.POST w)))).
  { vm_compute. right. right. left. reflexivity. }
  split; [exact Hin|].
  exact (requests_only_for_selected_invoices Scenario.all_well Scenario.now
           Scenario.POST w (FetchResend inv Scenario.reminder) inv
           Hin eq_refl).
Defined.

Lemma due_invoice_is_selected_witness :
  let w := Scenario.table
             [Scenario.paid; Scenario.due_later; Scenario.due_soon] in
  let inv := Scenario.due_soon in
  In inv (filter (fun r => (status r =? "open")%string) (invoices w))
  /\ (forall n w1, exists c w2 evs,
        process_invoice Scenario.all_well Scenario.now inv n w1 = (c, w2)
        /\ issued w1 w2 = SelectProfile inv :: evs)
  /\ In (SelectProfile inv)
       (issued w (snd (handler Scenario.all_well Scenario.now
                         Scenario.POST w))).
Proof.
  intros w inv.
  destruct (due_invoice_is_selected Scenario.all_well Scenario.now w inv
              "2024-01-18" 1705536000000) as (H1 & H2 & H3 & _).
  - cbn. auto.
  - reflexivity.
  - reflexivity.
  - reflexivity.
  - reflexivity.
  - right. vm_compute. discriminate.
  - split; [exact H1|]. split; [exact H2|].
    apply (H3 Scenario.POST [Scenario.paid; Scenario.due_later] []).
    + discriminate.
    + reflexivity.
    + reflexivity.
    + intros x Hx _ user _ _. cbn in Hx.
      repeat (destruct Hx as [<-|Hx];
              [eexists; split; [reflexivity|discriminate]|]).
      contradiction.
Defined.

(** An invoice that is open, below the cap and due in three days is left
    out by a run whose bulk read fails, by a run in which the provider
    never answers the mail of the invoice before it, and by a run in which
    the mail of the invoice before it cannot be composed. *)
Lemma due_invoice_may_be_left_out :
  let inv := Scenario.due_soon in
  let looked_up env rows :=
    In (SelectProfile inv)
       (trace (snd (handler env Scenario.now Scenario.POST
                      (Scenario.table rows)))) in
  (status inv = "open" /\ count_of inv < 3
   /\ due_date inv = Some "2024-01-18"
   /\ Date_parse "2024-01-18" = Some 1705536000000
   /\ 1705536000000 - Scenario.now <= WEEK)
  /\ ~ looked_up Scenario.store_down [inv]
  /\ ~ looked_up Scenario.provider_silent [Scenario.overdue; inv]
  /\ ~ looked_up Scenario.all_well [Scenario.no_amount; inv].
Proof.
  intros inv looked_up. subst looked_up. cbv beta.
  split; [repeat split; vm_compute; discriminate|].
  split; [|split]; vm_compute; intuition discriminate.
Qed.

(** C3: a run over an open invoice whose [due_date] is a text that is no
    date.  The window test lets it through: the recipient is looked up,
    the mail is posted and the count is raised, although the invoice has
    no due date that is past or within 7 days. *)
Theorem unreadable_due_date_is_mailed :
  Date_parse "eind januari" = None
  /\ handler Scenario.all_well Scenario.now Scenario.POST
       (Scenario.table [Scenario.unreadable])
     = (Normal (success_response 1),
        {| invoices :=
             [with_reminder "2024-01-15T08:00:00.000Z" 1 Scenario.unreadable];
           trace :=
             [SelectInvoices; SelectProfile Scenario.unreadable;
              FetchResend Scenario.unreadable
                (mail_for 12500 Scenario.unreadable Scenario.customer);
              UpdateInvoices Scenario.unreadable
                "2024-01-15T08:00:00.000Z" 1] |}).
Proof. split; vm_compute; reflexivity. Qed.

Lemma reminder_count_stays_capped_witness :
  let w := Scenario.table
             [Scenario.due_soon; Scenario.overdue; Scenario.at_cap] in
  let before := runs [Scenario.monday] w in
  let after := run_once Scenario.tuesday before in
  map count_of (invoices w) = [0; 2; 3]
  /\ map count_of (invoices before) = [1; 3; 3]
  /\ map count_of (invoices after) = [2; 3; 3]
  /\ Forall capped (invoices before)
  /\ Forall capped (invoices after)
  /\ (forall inv m,
        In (FetchResend inv m) (issued before after) -> count_of inv < 3)
  /\ Forall2 (count_step Scenario.all_well (Scenario.now + IsoDate.DAY)
                (issued before after))
             (invoices before) (invoices after).
Proof.
  intros w before after.
  split; [reflexivity|]. split; [reflexivity|]. split; [reflexivity|].
  assert (Hcap : Forall capped (invoices w))
    by (repeat constructor; vm_compute; discriminate).
  assert (Hnd : NoDup (map id (invoices w)))
    by (cbn; repeat constructor; cbn; intuition discriminate).
  destruct (reminder_count_stays_capped [Scenario.monday] Scenario.tuesday
              w Hcap Hnd) as (H1 & H2 & H3 & H4 & _).
  auto.
Defined.

(** *** Sample runs for the further properties *)

Lemma unreachable_recipient_is_skipped_witness :
  let w := Scenario.table [Scenario.due_soon; Scenario.overdue] in
  exists w',
    process_invoice Scenario.no_profile Scenario.now Scenario.due_soon 0 w
    = (Normal 0, w')
    /\ invoices w' = invoices w
    /\ issued w w' = [SelectProfile Scenario.due_soon]
    /\ for_of (process_invoice Scenario.no_profile Scenario.now)
         [Scenario.due_soon; Scenario.overdue] 0 w
       = for_of (process_invoice Scenario.no_profile Scenario.now)
           [Scenario.overdue] 0 w'.
Proof.
  intros w.
  apply (unreachable_recipient_is_skipped Scenario.no_profile Scenario.now
           Scenario.due_soon 0 w [Scenario.overdue]).
  - reflexivity.
  - left. discriminate.
Defined.

Lemma window_is_seven_days_inclusive_witness :
  (forall env n w, exists c w' evs,
      process_invoice env Scenario.now Scenario.due_soon n w = (c, w')
      /\ issued w w' = SelectProfile Scenario.due_soon :: evs)
  /\ (forall env n w,
        process_invoice env Scenario.now Scenario.due_later n w
        = (Normal n, w)).
Proof.
  split.
  - apply (window_is_seven_days_inclusive Scenario.now Scenario.due_soon
             "2024-01-18" 1705536000000); try reflexivity.
    vm_compute. discriminate.
  - apply (window_is_seven_days_inclusive Scenario.now Scenario.due_later
             "2024-01-25" 1706140800000); reflexivity.
Defined.

Lemma unreadable_due_date_is_not_excluded_witness :
  let w := Scenario.table [Scenario.unreadable] in
  exists c w' evs,
    process_invoice Scenario.all_well Scenario.now Scenario.unreadable 0 w
    = (c, w')
    /\ issued w w' = SelectProfile Scenario.unreadable :: evs.
Proof.
  intros w.
  apply (unreadable_due_date_is_not_excluded Scenario.all_well Scenario.now
           Scenario.unreadable "eind januari" 0 w);
    try reflexivity.
  discriminate.
Defined.

Lemma first_reminder_writes_one_witness :
  let w := Scenario.table [Scenario.fresh; Scenario.overdue] in
  cap_reached Scenario.fresh = false
  /\ Forall2 (fun old new =>
               if (id old =? id Scenario.fresh)%string
               then reminder_count new = Some 1
                    /\ reminder_sent_at new
                       = Some (Date_toISOString Scenario.now)
                    /\ same_but_reminder old new
               else new = old)
       (invoices w)
       (invoices (snd (process_invoice Scenario.all_well Scenario.now
                         Scenario.fresh 0 w))).
Proof.
  intros w.
  apply (first_reminder_writes_one Scenario.all_well Scenario.now
           Scenario.fresh 0 w Scenario.customer 4500 "{}");
    try reflexivity.
  left. reflexivity.
Defined.

Lemma only_preflight_skips_the_batch_witness :
  let w := Scenario.table [Scenario.due_soon] in
  issued w (snd (handler Scenario.all_well Scenario.now
                   {| method := "OPTIONS" |} w)) = []
  /\ exists evs,
       issued w (snd (handler Scenario.all_well Scenario.now
                        {| method := "GET" |} w))
       = SelectInvoices :: evs.
Proof.
  intros w. split.
  - apply (only_preflight_skips_the_batch Scenario.all_well Scenario.now
             {| method := "OPTIONS" |} w). reflexivity.
  - apply (only_preflight_skips_the_batch Scenario.all_well Scenario.now
             {| method := "GET" |} w). discriminate.
Defined.

Lemma nothing_open_nothing_sent_witness :
  let w := Scenario.table [Scenario.paid] in
  handler Scenario.provider_silent Scenario.now Scenario.POST w
  = (Normal (success_response 0), log [SelectInvoices] w).
Proof.
  intros w.
  apply (nothing_open_nothing_sent Scenario.provider_silent Scenario.now
           Scenario.POST w).
  - discriminate.
  - reflexivity.
  - intros inv [<-|[]]. discriminate.
Defined.

Lemma every_answer_has_cors_headers_witness :
  let resp := error_response "connection refused" in
  incl corsHeaders (resp_headers resp)
  /\ (resp_status resp = 200
      \/ (resp_status resp = 500
          /\ method Scenario.POST <> "OPTIONS"
          /\ exists msg, resp_body resp = BodyJSON [("error", JString msg)])).
Proof.
  intros resp.
  apply (every_answer_has_cors_headers Scenario.store_down Scenario.now
           Scenario.POST (Scenario.table [Scenario.due_soon]) resp).
  reflexivity.
Defined.

Lemma counts_grow_by_at_most_one_per_run_witness :
  let w := Scenario.table
             [Scenario.due_soon; Scenario.overdue; Scenario.at_cap] in
  let rs := [Scenario.monday; Scenario.tuesday] in
  map count_of (invoices (runs rs w)) = [2; 3; 3]
  /\ Forall2 (fun old new =>
               count_of old <= count_of new
                            <= count_of old + Z.of_nat (List.length rs))
       (invoices w) (invoices (runs rs w)).
Proof.
  intros w rs. split; [reflexivity|].
  apply (counts_grow_by_at_most_one_per_run rs w).
  cbn. repeat constructor; cbn; intuition discriminate.
Defined.

Lemma capped_rows_are_never_written_witness :
  let w := Scenario.table
             [Scenario.due_soon; Scenario.overdue; Scenario.at_cap] in
  let rs := [Scenario.monday; Scenario.tuesday] in
  Forall2 (fun old new => 3 <= count_of old -> new = old)
    (invoices w) (invoices (runs rs w)).
Proof.
  intros w rs.
  apply (capped_rows_are_never_written rs w).
  cbn. repeat constructor; cbn; intuition discriminate.
Defined.

Lemma rejected_updates_never_reach_the_cap_witness :
  let w := Scenario.table [Scenario.due_soon; Scenario.overdue] in
  let sunday := {| run_env := Scenario.update_rejected;
                   run_now := Scenario.now - IsoDate.DAY;
                   run_req := Scenario.POST |} in
  let rs := [sunday; sunday; sunday; sunday] in
  invoices (runs rs w) = invoices w.
Proof.
  intros w sunday rs.
  apply (rejected_updates_never_reach_the_cap rs w).
  intros r inv Hr. cbn in Hr.
  repeat (destruct Hr as [<-|Hr]; [discriminate|]). contradiction.
Defined.

Lemma requests_are_counted_witness :
  let w := Scenario.table
             [Scenario.due_soon; Scenario.due_later; Scenario.overdue] in
  let evs := issued w (snd (handler Scenario.update_rejected Scenario.now
                              Scenario.POST w)) in
  count_events is_update evs = 2%nat
  /\ resp_body (success_response 2)
     = BodyJSON [("success", JBool true);
                 ("remindersSent",
                  JNumber (Z.of_nat (count_events is_update evs)))].
Proof.
  intros w evs. split; [reflexivity|].
  apply (requests_are_counted Scenario.update_rejected Scenario.now
           Scenario.POST w).
  - discriminate.
  - reflexivity.
  - reflexivity.
Defined.

Lemma every_mail_has_a_recipient_witness :
  let w := Scenario.table [Scenario.paid; Scenario.due_soon] in
  exists user a addr,
    error (profiles_single Scenario.all_well Scenario.due_soon) = None
    /\ data (profiles_single Scenario.all_well Scenario.due_soon) = Some user
    /\ email user = Some addr /\ addr <> EmptyString
    /\ amount Scenario.due_soon = Some a
    /\ Scenario.reminder
       = {| from := "stockflow <noreply@stockflow.app>";
            to := Some addr;
            subject := "Herinnering: openstaande factuur stockflow";
            html := html_body a Scenario.due_soon user |}.
Proof.
  intros w.
  apply (every_mail_has_a_recipient Scenario.all_well Scenario.now
           Scenario.POST w Scenario.due_soon Scenario.reminder).
  vm_compute. right. right. left. reflexivity.
Defined.

Lemma error_after_read_is_a_missing_amount_witness :
  let w := Scenario.table [Scenario.due_soon; Scenario.no_amount] in
  let resp := error_response
                "Cannot read properties of null (reading 'toFixed')" in
  resp = error_response "Cannot read properties of null (reading 'toFixed')"
  /\ exists inv,
       In inv (invoices w) /\ status inv = "open"
       /\ eligible Scenario.now inv = true
       /\ recipient (profiles_single Scenario.all_well inv) <> None
       /\ amount inv = None.
Proof.
  intros w resp.
  apply (error_after_read_is_a_missing_amount Scenario.all_well Scenario.now
           Scenario.POST w resp).
  - discriminate.
  - reflexivity.
  - reflexivity.
  - reflexivity.
Defined.

Lemma a_stopped_run_keeps_what_was_done_witness :
  let w := Scenario.table
             [Scenario.due_soon; Scenario.no_amount; Scenario.overdue] in
  let w1 := snd (for_of (process_invoice Scenario.all_well Scenario.now)
                   [Scenario.due_soon] 0 (log [SelectInvoices] w)) in
  let out := handler Scenario.all_well Scenario.now Scenario.POST w in
  map count_of (invoices w1) = [1; 1; 2]
  /\ invoices (snd out) = invoices w1
  /\ (forall e, In e (issued w1 (snd out)) ->
                about e = Some Scenario.no_amount)
  /\ (forall n, fst out <> Normal (success_response n)).
Proof.
  intros w w1 out. split; [reflexivity|].
  apply (a_stopped_run_keeps_what_was_done Scenario.all_well Scenario.now
           Scenario.POST w [Scenario.due_soon] Scenario.no_amount
           [Scenario.overdue] 1 w1).
  - discriminate.
  - reflexivity.
  - reflexivity.
  - reflexivity.
  - intros n2. vm_compute. discriminate.
Defined.

(** ** Properties of the dashboard figures *)

Section DashboardProperties.

Context {D : DateAPI} {L : LocalTime}.

Lemma or_zero_some n : or_zero (Some n) = n.
Proof. unfold or_zero; cbn. now destruct (Z.eqb_spec n 0). Qed.

Lemma length_or_zero_some {A} (l : list A) :
  length_or_zero (Some l) = Z.of_nat (List.length l).
Proof. unfold length_or_zero. cbn [option_map]. apply or_zero_some. Qed.

Lemma filter_shorter {A} (p : A -> bool) (l : list A) :
  (List.length (filter p l) <= List.length l)%nat.
Proof.
  induction l as [|x l IH]; cbn; [lia|]. destruct (p x); cbn; lia.
Qed.

Lemma filter_all_length {A} (p : A -> bool) (l : list A) :
  List.length (filter p l) = List.length l <-> forall x, In x l -> p x = true.
Proof.
  induction l as [|x l IH]; cbn; [tauto|].
  pose proof (filter_shorter p l) as Hle. destruct IH as [IH1 IH2].
  destruct (p x) eqn:Hp; cbn; split.
  - intros [= E]. specialize (IH1 E). intros y [<-|Hy]; auto.
  - intros H. f_equal. apply IH2. auto.
  - lia.
  - intros H. specialize (H x (or_introl eq_refl)). congruence.
Qed.

(** X17: the low-stock alerts are a count of products: never negative,
    never more than the number of products, and as many as the products
    exactly when every product is at or below its minimum level.  Without
    product data both figures are 0. *)
Theorem low_stock_alerts_count_products (productsData : option (list Product)) :
  0 <= lowStockCount productsData <= totalProducts productsData
  /\ (productsData = None ->
      lowStockCount productsData = 0 /\ totalProducts productsData = 0)
  /\ (forall products,
        productsData = Some products ->
        (lowStockCount productsData = totalProducts productsData
         <-> forall p, In p products ->
                       quantity_in_stock p <= minimum_stock_level p)).
Proof.
  unfold lowStockCount, totalProducts.
  destruct productsData as [products|]; cbn [option_map].
  - rewrite !length_or_zero_some.
    pose proof (filter_shorter
      (fun p => quantity_in_stock p <=? minimum_stock_level p) products)
      as Hle.
    split; [lia|]. split; [discriminate|].
    intros ? [= <-]. rewrite Nat2Z.inj_iff, filter_all_length.
    split; intros H p Hp; specialize (H p Hp); lia.
  - split; [cbn; lia|]. split; [now split|discriminate].
Qed.

(** *** The loop over the days *)

Lemma days_fuel_next d end_ :
  d <= end_ -> (S (days_fuel (next_day d) end_) <= days_fuel d end_)%nat.
Proof.
  intros Hd. pose proof (next_day_later d). unfold days_fuel. lia.
Qed.

(** More rounds than [days_fuel] change nothing: by then the loop has left
    off by itself. *)
Lemma days_loop_fuel ts end_ fuel : forall d extra,
  (days_fuel d end_ <= fuel)%nat ->
  days_loop (fuel + extra) d end_ ts = days_loop fuel d end_ ts
  /\ end_ < days_stop fuel d end_.
Proof.
  induction fuel as [|fuel IH]; intros d extra Hf.
  - assert (end_ < d) by (unfold days_fuel in Hf; lia).
    cbn [Nat.add days_stop days_loop]. split; [|assumption].
    destruct extra; cbn [days_loop]; [reflexivity|].
    destruct (Z.leb_spec d end_); [lia|reflexivity].
  - cbn [Nat.add days_loop days_stop].
    destruct (Z.leb_spec d end_) as [Hd|Hd]; [|auto].
    pose proof (days_fuel_next d end_ Hd).
    destruct (IH (next_day d) extra) as [E Hs]; [lia|].
    now rewrite E.
Qed.

Lemma days_loop_entries ts end_ fuel : forall d,
  Forall (fun e => exists day, d <= day <= end_ /\ e = day_entry day ts)
    (days_loop fuel d end_ ts).
Proof.
  induction fuel as [|fuel IH]; intros d; cbn [days_loop]; [constructor|].
  destruct (Z.leb_spec d end_) as [Hd|Hd]; [|constructor].
  constructor; [exists d; split; [lia|reflexivity]|].
  pose proof (next_day_later d).
  generalize (IH (next_day d)). apply Forall_impl.
  intros e (day & Hday & ->). exists day. split; [lia|reflexivity].
Qed.

(** With rounds enough, the loop gives the entries of the days of the
    range, all of them and in their order. *)
Lemma days_loop_range ts end_ fuel : forall d,
  (days_fuel d end_ <= fuel)%nat ->
  exists ds,
    range_days end_ d ds
    /\ days_loop fuel d end_ ts = map (fun day => day_entry day ts) ds.
Proof.
  induction fuel as [|fuel IH]; intros d Hf.
  - exists []. split; [|reflexivity]. constructor.
    unfold days_fuel in Hf. lia.
  - cbn [days_loop]. destruct (Z.leb_spec d end_) as [Hd|Hd].
    + pose proof (days_fuel_next d end_ Hd).
      destruct (IH (next_day d)) as (ds & Hr & E); [lia|].
      exists (d :: ds). split; [now constructor|]. cbn [map]. now rewrite E.
    + exists []. split; [now constructor|reflexivity].
Qed.

(** The days of a range are determined by its ends. *)
Lemma range_days_unique end_ d ds1 ds2 :
  range_days end_ d ds1 -> range_days end_ d ds2 -> ds1 = ds2.
Proof.
  intros H1. revert ds2.
  induction H1 as [d Hd|d ds Hd _ IH]; intros ds2 H2;
    inversion H2; subst; try lia; [reflexivity|].
  f_equal. now apply IH.
Qed.

(** X18: the loop over the days comes to an end and covers the range.
    With [start] and [end_] the starts of the first and the last day of
    the range, the activity is the list of the entries of the days of the
    range, one entry per day and in order: [start], the day after it, and
    so on up to the last day that is not after [end_]; and these days are
    the only list that runs through the range so.  In particular the
    activity has the entry of the first day at its head when the range is
    not empty and is empty when it is; and running the loop for more
    rounds adds nothing. *)
Theorem daily_activity_covers_the_range now dateFrom dateTo ts :
  let start :=
    start_of_day match dateFrom with Some t => t | None => now end in
  let end_ :=
    start_of_day match dateTo with Some t => t | None => now end in
  let activity := dailyActivity now dateFrom dateTo ts in
  (exists days,
     range_days end_ start days
     /\ activity = map (fun day => day_entry day ts) days
     /\ forall days', range_days end_ start days' -> days' = days)
  /\ (start <= end_ -> exists rest, activity = day_entry start ts :: rest)
  /\ (end_ < start -> activity = [])
  /\ Forall (fun e => exists day,
                 start <= day <= end_ /\ e = day_entry day ts) activity
  /\ end_ < days_stop (days_fuel start end_) start end_
  /\ (forall extra,
        days_loop (days_fuel start end_ + extra) start end_ ts = activity).
Proof.
  intros start end_ activity. subst activity. unfold dailyActivity.
  fold start. fold end_.
  destruct (days_loop_fuel ts end_ (days_fuel start end_) start 0)
    as [_ Hstop]; [lia|].
  split; [|split; [|split; [|split; [|split]]]].
  - destruct (days_loop_range ts end_ (days_fuel start end_) start)
      as (days & Hr & E); [lia|].
    exists days. split; [exact Hr|]. split; [exact E|].
    intros days' Hr'. exact (range_days_unique end_ start days' days Hr' Hr).
  - intros Hd. unfold days_fuel.
    destruct (Z.to_nat (end_ - start + 1)) as [|fuel] eqn:Hf; [lia|].
    cbn [days_loop]. destruct (Z.leb_spec start end_); [eauto|lia].
  - intros Hd. unfold days_fuel.
    replace (Z.to_nat (end_ - start + 1)) with 0%nat by lia. reflexivity.
  - apply days_loop_entries.
  - exact Hstop.
  - intros extra. now apply days_loop_fuel.
Qed.


(** *** Adding up *)

Lemma fold_quantity ts : forall a,
  fold_left (fun sum t => sum + quantity t) ts a = a + sum_quantity ts.
Proof.
  unfold sum_quantity.
  induction ts as [|t ts IH]; intros a; cbn [fold_left]; [lia|].
  rewrite (IH (a + quantity t)), (IH (0 + quantity t)). lia.
Qed.

Lemma sum_quantity_cons t ts :
  sum_quantity (t :: ts) = quantity t + sum_quantity ts.
Proof. unfold sum_quantity at 1. cbn [fold_left]. now rewrite fold_quantity. Qed.

(** The sum over the transactions that pass a test. *)
Lemma sum_split (p q r : Transaction -> bool) ts :
  (forall t, p t = q t || r t) ->
  (forall t, q t && r t = false) ->
  sum_quantity (filter p ts)
  = sum_quantity (filter q ts) + sum_quantity (filter r ts).
Proof.
  intros Hor Hno. induction ts as [|t ts IH]; [reflexivity|].
  cbn [filter]. specialize (Hor t). specialize (Hno t). rewrite Hor.
  destruct (q t), (r t); cbn [orb] in *; try discriminate;
    rewrite ?sum_quantity_cons; lia.
Qed.

Lemma of_type_filter type (p : Transaction -> bool) ts :
  of_type type (filter p ts)
  = filter (fun t => (transaction_type t =? type)%string && p t) ts.
Proof.
  unfold of_type. induction ts as [|t ts IH]; [reflexivity|].
  cbn [filter]. destruct (p t); cbn [filter];
    destruct (transaction_type t =? type)%string; cbn [andb]; now rewrite IH.
Qed.

Lemma on_day_split d m s t :
  d <= m <= s ->
  on_day d s t = on_day d m t || on_day m s t
  /\ on_day d m t && on_day m s t = false.
Proof.
  intros Hm. unfold on_day.
  destruct (Date_parse (created_at t)) as [td|]; [|auto].
  destruct (Z.leb_spec d td), (Z.ltb_spec td s), (Z.leb_spec m td),
    (Z.ltb_spec td m); cbn; split; try reflexivity; lia.
Qed.

Lemma days_stop_later fuel end_ : forall d, d <= days_stop fuel d end_.
Proof.
  induction fuel as [|fuel IH]; intros d; cbn [days_stop]; [lia|].
  destruct (d <=? end_); [|lia].
  pose proof (next_day_later d). specialize (IH (next_day d)). lia.
Qed.

Lemma days_loop_total type (f : DailyActivityData -> Z) ts end_ :
  (forall d, f (day_entry d (Some ts))
             = sum_quantity (of_type type (filter (on_day d (next_day d)) ts))) ->
  forall fuel d,
    total f (days_loop fuel d end_ (Some ts))
    = sum_quantity
        (of_type type (filter (on_day d (days_stop fuel d end_)) ts)).
Proof.
  intros Hf. induction fuel as [|fuel IH]; intros d.
  - cbn [days_loop days_stop total map fold_right].
    rewrite of_type_filter.
    rewrite (sum_split _ (fun _ => false) (fun _ => false));
      [|intros t; unfold on_day;
         destruct (Date_parse (created_at t)) as [td|];
         [destruct (Z.leb_spec d td), (Z.ltb_spec td d); cbn;
          rewrite ?andb_false_r; try reflexivity; lia
         |now rewrite andb_false_r]
      |reflexivity].
    clear. induction ts; cbn; auto.
  - cbn [days_loop days_stop].
    destruct (Z.leb_spec d end_) as [Hd|Hd].
    + unfold total in *. cbn [map fold_right]. rewrite IH, Hf.
      pose proof (next_day_later d).
      pose proof (days_stop_later fuel end_ (next_day d)).
      rewrite !of_type_filter. symmetry. apply sum_split; intros t.
      * destruct (on_day_split d (next_day d)
                    (days_stop fuel (next_day d) end_) t) as [E _]; [lia|].
        rewrite E. now destruct (transaction_type t =? type)%string.
      * destruct (on_day_split d (next_day d)
                    (days_stop fuel (next_day d) end_) t) as [_ E]; [lia|].
        destruct (transaction_type t =? type)%string; cbn; auto.
    + cbn [total map fold_right]. rewrite of_type_filter.
      rewrite (sum_split _ (fun _ => false) (fun _ => false));
        [|intros t; unfold on_day;
           destruct (Date_parse (created_at t)) as [td|];
           [destruct (Z.leb_spec d td), (Z.ltb_spec td d); cbn;
            rewrite ?andb_false_r; try reflexivity; lia
           |now rewrite andb_false_r]
        |reflexivity].
      clear. induction ts; cbn; auto.
Qed.

(** X20: the days of the activity share out the transactions of the range
    without loss and without counting any twice.  The incoming quantities
    of all entries add up to the incoming quantity of the transactions
    dated from the first day up to (not including) the day at which the
    loop leaves off, and likewise the outgoing ones; a transaction with an
    unreadable date or another type is in no entry.  Without transaction
    data every entry is zero. *)
Theorem daily_totals_add_up now dateFrom dateTo ts :
  let start :=
    start_of_day match dateFrom with Some t => t | None => now end in
  let end_ :=
    start_of_day match dateTo with Some t => t | None => now end in
  let stop := days_stop (days_fuel start end_) start end_ in
  total incoming (dailyActivity now dateFrom dateTo (Some ts))
  = sum_quantity (of_type "incoming" (filter (on_day start stop) ts))
  /\ total outgoing (dailyActivity now dateFrom dateTo (Some ts))
     = sum_quantity (of_type "outgoing" (filter (on_day start stop) ts))
  /\ Forall (fun e => incoming e = 0 /\ outgoing e = 0)
       (dailyActivity now dateFrom dateTo None).
Proof.
  intros start end_ stop. unfold dailyActivity. fold start. fold end_.
  split; [|split].
  - now apply (days_loop_total "incoming" incoming).
  - now apply (days_loop_total "outgoing" outgoing).
  - generalize (days_loop_entries None end_ (days_fuel start end_) start).
    apply Forall_impl. intros e (day & _ & ->). now split.
Qed.

Lemma not_before_split today nextDay t :
  today <= nextDay ->
  not_before today t = on_day today nextDay t || not_before nextDay t
  /\ on_day today nextDay t && not_before nextDay t = false.
Proof.
  intros Hn. unfold not_before, on_day.
  destruct (Date_parse (created_at t)) as [td|]; [|auto].
  destruct (Z.leb_spec today td), (Z.ltb_spec td nextDay),
    (Z.leb_spec nextDay td); cbn; split; try reflexivity; lia.
Qed.

(** X21: today's figures have no upper end.  Today's incoming quantity is
    the incoming quantity of today's activity entry plus that of every
    transaction dated tomorrow or later, and likewise the outgoing one;
    without transaction data both are 0. *)
Theorem today_includes_what_is_dated_later now ts :
  let today := start_of_day now in
  let later type :=
    sum_quantity (of_type type (filter (not_before (next_day today)) ts)) in
  incomingToday now (Some ts)
  = incoming (day_entry today (Some ts)) + later "incoming"
  /\ outgoingToday now (Some ts)
     = outgoing (day_entry today (Some ts)) + later "outgoing"
  /\ incomingToday now None = 0
  /\ outgoingToday now None = 0.
Proof.
  intros today later. subst later.
  pose proof (next_day_later today) as Hn.
  assert (H : forall type,
             quantity_today type now (Some ts)
             = sum_quantity
                 (of_type type (filter (on_day today (next_day today)) ts))
               + sum_quantity
                   (of_type type (filter (not_before (next_day today)) ts))).
  { intros type. unfold quantity_today. fold today.
    cbn [option_map]. rewrite or_zero_some, !of_type_filter.
    apply sum_split; intros t.
    - destruct (not_before_split today (next_day today) t) as [E _]; [lia|].
      rewrite E. now destruct (transaction_type t =? type)%string.
    - destruct (not_before_split today (next_day today) t) as [_ E]; [lia|].
      destruct (transaction_type t =? type)%string; cbn; auto. }
  repeat split; try reflexivity; apply H.
Qed.

End DashboardProperties.

(** *** Sample figures *)

#[local] Existing Instance UtcTime.clock.

Lemma low_stock_alerts_count_products_witness :
  lowStockCount (Some Stock.products) = 2
  /\ totalProducts (Some Stock.products) = 3
  /\ 0 <= lowStockCount (Some Stock.products)
       <= totalProducts (Some Stock.products).
Proof.
  split; [reflexivity|]. split; [reflexivity|].
  apply (low_stock_alerts_count_products (Some Stock.products)).
Defined.

Lemma daily_activity_covers_the_range_witness :
  let activity := dailyActivity Stock.monday (Some Stock.saturday)
                    (Some Stock.monday) (Some Stock.movements) in
  let days := [1705104000000; 1705190400000; 1705276800000] in
  activity = [ {| date := "Jan 13"; incoming := 10; outgoing := 0 |};
               {| date := "Jan 14"; incoming := 0; outgoing := 4 |};
               {| date := "Jan 15"; incoming := 7; outgoing := 1 |} ]
  /\ range_days (start_of_day Stock.monday)
       (start_of_day Stock.saturday) days
  /\ activity
     = map (fun day => day_entry day (Some Stock.movements)) days.
Proof.
  intros activity days. split; [reflexivity|].
  destruct (daily_activity_covers_the_range Stock.monday
              (Some Stock.saturday) (Some Stock.monday)
              (Some Stock.movements))
    as ((days' & Hr & E & Huniq) & _).
  assert (Hdays : range_days (start_of_day Stock.monday)
                    (start_of_day Stock.saturday) days).
  { repeat (apply range_day; [cbn; discriminate|]).
    apply range_over. reflexivity. }
  rewrite <- (Huniq days Hdays) in E. split; [exact Hdays|exact E].
Defined.
